(** * RouterSimulator: a shallow embedding of [RouterSimulator.cpp]

    The program is a command-line simulator of one IP router.  Its pieces
    are embedded in the order of the source file:

    - the utilities [ipToUint] and [maskFromPrefix];
    - the value classes [IPAddress], [Route] and [Packet];
    - the class [RoutingTable] (a [std::vector<Route>]);
    - the command handlers of [RouterCLI].

    Conventions.  A C++ [int] is a [Z] in the range of [to_int], a
    [uint32_t] a [Z] in the range of [to_uint32]; the wrap-around of every
    operation is written out.  A [std::string] is a [string] (a sequence of
    bytes).  A function that can throw returns a [result]; the handlers
    thread the state of the [RouterCLI] object and keep the state reached
    when an exception leaves them. *)

From Stdlib Require Import ZArith List Bool Ascii String Lia.
From Stdlib Require Import Permutation Sorted.
From coqutil Require Import Z.bitblast.
Import ListNotations.

Local Open Scope string_scope.
Local Open Scope list_scope.
Local Open Scope Z_scope.

(* ================================================================== *)
(** * Machine integers *)

Module Int.

Definition INT_MIN : Z := - 2 ^ 31.
Definition INT_MAX : Z := 2 ^ 31 - 1.
Definition LONG_MIN : Z := - 2 ^ 63.
Definition LONG_MAX : Z := 2 ^ 63 - 1.

(** Conversion to [uint32_t]: reduction modulo 2^32. *)
Definition to_uint32 (x : Z) : Z := x mod 2 ^ 32.

(** Conversion to [int]: the two's complement value of the low 32 bits. *)
Definition to_int (x : Z) : Z := (x + 2 ^ 31) mod 2 ^ 32 - 2 ^ 31.

Definition in_int (x : Z) : bool := (INT_MIN <=? x) && (x <=? INT_MAX).

(** What [strtol] returns for a value that does not fit a [long]. *)
Definition clamp_long (x : Z) : Z := Z.max LONG_MIN (Z.min LONG_MAX x).

End Int.

(* ================================================================== *)
(** * Exceptions *)

(** The four places of the program that throw.  [bad_ip_format] is the
    [invalid_argument] of [ipToUint] (the ParseError of the specification),
    [bad_prefix] the [invalid_argument] of [maskFromPrefix] (its
    InvalidPrefixError); the other two are thrown by [std::stoi]. *)
Inductive exn : Type :=
| bad_ip_format (ip : string)
| bad_prefix
| stoi_invalid_argument
| stoi_out_of_range.

Inductive result (A : Type) : Type :=
| Ok (a : A)
| Throw (e : exn).

Arguments Ok {A} a.
Arguments Throw {A} e.

Definition bind {A B : Type} (x : result A) (f : A -> result B) : result B :=
  match x with
  | Ok a => f a
  | Throw e => Throw e
  end.

Definition ret {A : Type} (a : A) : result A := Ok a.

Declare Scope result_scope.
Delimit Scope result_scope with result.
Notation "x <- e ;; k" := (bind e (fun x => k))
  (at level 61, e at next level, right associativity) : result_scope.
Notation "' p <- e ;; k" := (bind e (fun p => k))
  (at level 61, p pattern, e at next level, right associativity) : result_scope.

(** C++ leaves open in which order the two operands of [&] and the
    arguments of a constructor call are evaluated.  Each such place of the
    source is a [site]; a compiler's choice is a function from sites to
    orders.  The order only decides which of two exceptions is seen. *)
Inductive eval_order : Type := left_first | right_first.

Inductive site : Type :=
| site_addr_and_mask     (* ipToUint(ip) & maskFromPrefix(prefix) *)
| site_route_args        (* Route(IPAddress(net), IPAddress(gw), m) *)
| site_packet_args.      (* Packet pkt(IPAddress(src), IPAddress(dst), proto) *)

Definition both {A B : Type} (o : eval_order) (x : result A) (y : result B)
  : result (A * B) :=
  match o with
  | left_first =>
      match x with
      | Throw e => Throw e
      | Ok a => match y with Throw e => Throw e | Ok b => Ok (a, b) end
      end
  | right_first =>
      match y with
      | Throw e => Throw e
      | Ok b => match x with Throw e => Throw e | Ok a => Ok (a, b) end
      end
  end.

(* ================================================================== *)
(** * Characters and strings *)

Module Text.

Definition nl : string := String "010"%char EmptyString.

(** [isspace] in the "C" locale. *)
Definition isspace (c : ascii) : bool :=
  let n := nat_of_ascii c in
  (Nat.eqb n 32 || (Nat.leb 9 n && Nat.leb n 13))%bool.

Definition isdigit (c : ascii) : bool :=
  let n := nat_of_ascii c in (Nat.leb 48 n && Nat.leb n 57)%bool.

Definition digit_value (c : ascii) : Z := Z.of_nat (nat_of_ascii c) - 48.

Definition digit_char (d : Z) : ascii := ascii_of_nat (Z.to_nat (48 + d)).

(** [s.c_str()] as a C function reads it: up to the first NUL. *)
Fixpoint c_str (s : string) : string :=
  match s with
  | EmptyString => EmptyString
  | String c s' =>
      if Ascii.eqb c zero then EmptyString else String c (c_str s')
  end.

(** [s.find(c)]; [None] is [string::npos]. *)
Fixpoint find (c : ascii) (s : string) : option nat :=
  match s with
  | EmptyString => None
  | String c' s' =>
      if Ascii.eqb c' c then Some O
      else match find c s' with
           | Some i => Some (S i)
           | None => None
           end
  end.

Fixpoint drop (n : nat) (s : string) : string :=
  match n, s with
  | O, _ => s
  | S n', EmptyString => EmptyString
  | S n', String _ s' => drop n' s'
  end.

Fixpoint take (n : nat) (s : string) : string :=
  match n, s with
  | O, _ => EmptyString
  | S n', EmptyString => EmptyString
  | S n', String c s' => String c (take n' s')
  end.

(** [s.substr(pos, len)] for [pos <= s.size()], the only way the program
    calls it; a [len] of [None] is [npos], the default. *)
Definition substr (s : string) (pos : nat) (len : option nat) : string :=
  match len with
  | None => drop pos s
  | Some n => take n (drop pos s)
  end.

Fixpoint skip_space (s : string) : string :=
  match s with
  | String c s' => if isspace c then skip_space s' else s
  | EmptyString => s
  end.

(** The longest run of decimal digits at the head of [s], accumulated
    onto [acc]; the flag tells whether a digit was read. *)
Fixpoint scan_digits (acc : Z) (seen : bool) (s : string) : Z * bool * string :=
  match s with
  | String c s' =>
      if isdigit c then scan_digits (10 * acc + digit_value c) true s'
      else (acc, seen, s)
  | EmptyString => (acc, seen, s)
  end.

(** A decimal integer as [strtol], [scanf("%d")] and [istream >> int]
    read it: white space, an optional sign, at least one digit.  The
    result is the mathematical value and the unread rest; what becomes
    of a value that does not fit is the caller's. *)
Definition scan_decimal (s : string) : option (Z * string) :=
  let s1 := skip_space s in
  let '(neg, s2) :=
    match s1 with
    | String "-"%char t => (true, t)
    | String "+"%char t => (false, t)
    | _ => (false, s1)
    end in
  match scan_digits 0 false s2 with
  | (v, true, rest) => Some (if neg then - v else v, rest)
  | (_, false, _) => None
  end.

(** Decimal digits of a non-negative number, most significant first,
    put in front of [acc].  [fuel] bounds the number of digits. *)
Fixpoint digits (fuel : nat) (n : Z) (acc : string) : string :=
  match fuel with
  | O => acc
  | S fuel' =>
      let acc' := String (digit_char (n mod 10)) acc in
      if n <? 10 then acc' else digits fuel' (n / 10) acc'
  end.

(** [ostream << n] for an integer [n]. *)
Definition decimal (n : Z) : string :=
  if n <? 0 then String "-"%char (digits (S (Z.to_nat (Z.log2 (- n)))) (- n) "")
  else digits (S (Z.to_nat (Z.log2 n))) n "".

End Text.

(** [e.what()]: the message as a C string, which ends at the first NUL
    (the text of a refused address may hold one). *)
Definition what (e : exn) : string :=
  Text.c_str
    match e with
    | bad_ip_format ip =>
        "Nieprawidłowy format adresu IP: " ++ ip ++ ". Poprawny przykład: 192.168.0.1"
    | bad_prefix => "Nieprawidłowa długość prefiksu. Dozwolony zakres: 0-32."
    | stoi_invalid_argument => "stoi"
    | stoi_out_of_range => "stoi"
    end.

(* ================================================================== *)
(** * Utilities *)

(** [sscanf(s, "%d.%d.%d.%d", ...)]: the values converted before the first
    failure, at most four.  A [%d] skips white space and reads a signed
    decimal; the dots of the format must be met literally; input after the
    fourth number is not looked at.  A number outside the range of [int] is
    stored as glibc stores it: [strtol]'s saturated [long], truncated. *)
Definition scan_int (s : string) : option (Z * string) :=
  match Text.scan_decimal s with
  | Some (v, rest) => Some (Int.to_int (Int.clamp_long v), rest)
  | None => None
  end.

Definition expect_dot (s : string) : option string :=
  match s with
  | String "."%char rest => Some rest
  | _ => None
  end.

Definition sscanf_dotted_quad (s : string) : list Z :=
  match scan_int s with
  | None => []
  | Some (p0, s) =>
      match expect_dot s with
      | None => [p0]
      | Some s =>
          match scan_int s with
          | None => [p0]
          | Some (p1, s) =>
              match expect_dot s with
              | None => [p0; p1]
              | Some s =>
                  match scan_int s with
                  | None => [p0; p1]
                  | Some (p2, s) =>
                      match expect_dot s with
                      | None => [p0; p1; p2]
                      | Some s =>
                          match scan_int s with
                          | None => [p0; p1; p2]
                          | Some (p3, _) => [p0; p1; p2; p3]
                          end
                      end
                  end
              end
          end
      end
  end.

(** [p << k] on [int]. *)
Definition shl_int (p k : Z) : Z := Int.to_int (Z.shiftl p k).

Definition ipToUint (ip : string) : result Z :=
  match sscanf_dotted_quad (Text.c_str ip) with
  | [p0; p1; p2; p3] =>
      Ok (Int.to_uint32
            (Z.lor (Z.lor (Z.lor (shl_int p0 24) (shl_int p1 16)) (shl_int p2 8)) p3))
  | _ => Throw (bad_ip_format ip)
  end.

Definition maskFromPrefix (prefix : Z) : result Z :=
  if (prefix <? 0) || (prefix >? 32) then Throw bad_prefix
  else Ok (if prefix =? 0 then 0
           else Int.to_uint32 (Z.shiftl 0xFFFFFFFF (32 - prefix))).

(** [std::stoi(s)]: [strtol] in base 10; nothing converted is
    [invalid_argument], a value outside [int] is [out_of_range]. *)
Definition stoi (s : string) : result Z :=
  match Text.scan_decimal (Text.c_str s) with
  | None => Throw stoi_invalid_argument
  | Some (v, _) => if Int.in_int v then Ok v else Throw stoi_out_of_range
  end.

(* ================================================================== *)
(** * IPAddress *)

Module IPAddress.

(** The two private fields: [uint32_t addr; int prefix;]. *)
Record t : Type := mk { addr : Z; prefix : Z }.

Section Constructor.
Variable order : site -> eval_order.

(** [explicit IPAddress(const string& cidr)]. *)
Definition make (cidr : string) : result t :=
  let slash := Text.find "/"%char cidr in
  let ip := Text.substr cidr 0 slash in
  (prefix <- match slash with
             | None => Ok 32
             | Some i => stoi (Text.substr cidr (S i) None)
             end ;;
   ' (a, m) <- both (order site_addr_and_mask) (ipToUint ip) (maskFromPrefix prefix) ;;
   ret (mk (Z.land a m) prefix))%result.
End Constructor.

Definition matches (self other : t) : result bool :=
  (mask <- maskFromPrefix (prefix self) ;;
   ret (Z.land (addr other) mask =? addr self))%result.

Definition getPrefix (self : t) : Z := prefix self.

Definition toString (self : t) : string :=
  (Text.decimal (Z.land (Z.shiftr (addr self) 24) 0xFF) ++ "." ++
   Text.decimal (Z.land (Z.shiftr (addr self) 16) 0xFF) ++ "." ++
   Text.decimal (Z.land (Z.shiftr (addr self) 8) 0xFF) ++ "." ++
   Text.decimal (Z.land (addr self) 0xFF) ++ "/" ++
   Text.decimal (prefix self))%string.

(** [operator==]. *)
Definition eqb (self other : t) : bool :=
  (addr self =? addr other) && (prefix self =? prefix other).

(** The class invariant: what every object built by the constructor
    satisfies (see [make_valid] below). *)
Definition valid (ip : t) : Prop :=
  0 <= prefix ip <= 32 /\
  0 <= addr ip < 2 ^ 32 /\
  exists mask, maskFromPrefix (prefix ip) = Ok mask /\ Z.land (addr ip) mask = addr ip.

End IPAddress.

(** [std::hash<IPAddress>]: the hash of the printed address.  What
    [std::hash<string>] computes is left to the library; it is a parameter. *)
Definition hash_IPAddress (hash_string : string -> Z) (ip : IPAddress.t) : Z :=
  hash_string (IPAddress.toString ip).

(* ================================================================== *)
(** * Route *)

Module Route.

Record t : Type := mk {
  network : IPAddress.t;
  gateway : IPAddress.t;
  metric : Z
}.

Definition getNetwork (r : t) : IPAddress.t := network r.
Definition getGateway (r : t) : IPAddress.t := gateway r.
Definition getMetric (r : t) : Z := metric r.

Definition matches (r : t) (addr : IPAddress.t) : result bool :=
  IPAddress.matches (network r) addr.

Definition toString (r : t) : string :=
  ("Sieć: " ++ IPAddress.toString (network r) ++
   ", Brama: " ++ IPAddress.toString (gateway r) ++
   ", Metryka: " ++ Text.decimal (metric r))%string.

Definition valid (r : t) : Prop :=
  IPAddress.valid (network r) /\ IPAddress.valid (gateway r) /\
  Int.in_int (metric r) = true.

End Route.

(* ================================================================== *)
(** * RoutingTable *)

Module RoutingTable.

(** The single field, [vector<Route> routes]. *)
Definition t : Type := list Route.t.

Definition addRoute (routes : t) (r : Route.t) : t := (routes ++ [r])%list.

(** [std::remove_if(first, last, pred)] on a vector of objects whose move
    assignment copies: the elements that fail [pred] are shifted to the
    front in their order, the slots behind them keep what they held.  The
    result is the vector and the index of the returned iterator. *)
Definition remove_if {A : Type} (pred : A -> bool) (v : list A) : list A * nat :=
  let kept := filter (fun x => negb (pred x)) v in
  ((kept ++ skipn (List.length kept) v)%list, List.length kept).

(** [v.erase(v.begin() + it, v.end())]. *)
Definition erase_from {A : Type} (it : nat) (v : list A) : list A := firstn it v.

(** [removeRoute]: the routes left and the line written to [cout]. *)
Definition removeRoute (routes : t) (network : IPAddress.t) : t * string :=
  let '(routes1, it) :=
    remove_if (fun r => IPAddress.eqb (Route.getNetwork r) network) routes in
  if negb (Nat.eqb it (List.length routes1)) then
    (erase_from it routes1, "Trasa została usunięta." ++ Text.nl)%string
  else
    (routes1, "Nie znaleziono podanej trasy." ++ Text.nl)%string.

(** One turn of the loop of [findRoute]. *)
Definition findRoute_step (addr : IPAddress.t) (best : option Route.t) (r : Route.t)
  : result (option Route.t) :=
  (m <- Route.matches r addr ;;
   ret (if m then
          match best with
          | None => Some r
          | Some b =>
              if IPAddress.getPrefix (Route.getNetwork r)
                 >? IPAddress.getPrefix (Route.getNetwork b)
              then Some r else best
          end
        else best))%result.

Fixpoint findRoute_loop (addr : IPAddress.t) (best : option Route.t) (routes : t)
  : result (option Route.t) :=
  match routes with
  | [] => Ok best
  | r :: rest =>
      (best' <- findRoute_step addr best r ;;
       findRoute_loop addr best' rest)%result
  end.

Definition findRoute (routes : t) (addr : IPAddress.t) : result (option Route.t) :=
  findRoute_loop addr None routes.

(** What [std::sort(first, last, comp)] promises: the result is a
    rearrangement of the input in which no element is [comp]-less than
    an earlier one.  The order of equivalent elements is left open. *)
Definition sort_result {A : Type} (comp : A -> A -> bool) (input output : list A) : Prop :=
  Permutation input output /\
  StronglySorted (fun a b => comp b a = false) output.

Definition by_metric (a b : Route.t) : bool := Route.getMetric a <? Route.getMetric b.

Definition print_line (r : Route.t) : string :=
  ("  " ++ Route.toString r ++ Text.nl)%string.

(** [print]: the texts it may write to [cout].  The vector itself is not
    touched, the method is [const] and sorts a copy. *)
Inductive print (routes : t) : string -> Prop :=
| print_empty :
    routes = [] ->
    print routes ("Tablica routingu jest pusta." ++ Text.nl)%string
| print_sorted (sorted : list Route.t) :
    routes <> [] ->
    sort_result by_metric routes sorted ->
    print routes ("Aktualna tablica routingu:" ++ Text.nl ++
                  String.concat "" (map print_line sorted))%string.

Definition valid (routes : t) : Prop := Forall Route.valid routes.

End RoutingTable.

(* ================================================================== *)
(** * Packet *)

Module Packet.

Record t : Type := mk {
  source : IPAddress.t;
  destination : IPAddress.t;
  protocol : string
}.

Definition getDestination (p : t) : IPAddress.t := destination p.

Definition toString (p : t) : string :=
  ("Pakiet od " ++ IPAddress.toString (source p) ++
   " do " ++ IPAddress.toString (destination p) ++
   " [" ++ protocol p ++ "]")%string.

End Packet.

(* ================================================================== *)
(** * RouterCLI *)

Module RouterCLI.

(** The object: its table, and the text written so far to the log file
    and to [cout]. *)
Record t : Type := mk {
  table : RoutingTable.t;
  log : string;
  cout : string
}.

Definition write_cout (st : t) (s : string) : t :=
  mk (table st) (log st) (cout st ++ s).

Definition write_log (st : t) (s : string) : t :=
  mk (table st) (log st ++ s) (cout st).

Definition set_table (st : t) (tb : RoutingTable.t) : t :=
  mk tb (log st) (cout st).

(** [ss >> word] on the unread rest of an [istringstream]: white space is
    skipped, then characters are taken up to the next white space; no
    character taken is a failure. *)
Fixpoint take_word (s : string) : string * string :=
  match s with
  | String c s' =>
      if Text.isspace c then (EmptyString, s)
      else let '(w, rest) := take_word s' in (String c w, rest)
  | EmptyString => (EmptyString, EmptyString)
  end.

Definition extract_string (ss : string) : option (string * string) :=
  match take_word (Text.skip_space ss) with
  | (EmptyString, _) => None
  | (w, rest) => Some (w, rest)
  end.

(** [ss >> m] for [int m]: no digit, or a value outside [int], sets
    [failbit]. *)
Definition extract_int (ss : string) : option (Z * string) :=
  match Text.scan_decimal ss with
  | Some (v, rest) => if Int.in_int v then Some (v, rest) else None
  | None => None
  end.

(** [ss >> net >> gw >> m]: the three values when no extraction fails. *)
Definition read_add_args (ss : string) : option (string * string * Z) :=
  match extract_string ss with
  | None => None
  | Some (net, ss1) =>
      match extract_string ss1 with
      | None => None
      | Some (gw, ss2) =>
          match extract_int ss2 with
          | None => None
          | Some (m, _) => Some (net, gw, m)
          end
      end
  end.

(** [ss >> src >> dst >> proto]. *)
Definition read_send_args (ss : string) : option (string * string * string) :=
  match extract_string ss with
  | None => None
  | Some (src, ss1) =>
      match extract_string ss1 with
      | None => None
      | Some (dst, ss2) =>
          match extract_string ss2 with
          | None => None
          | Some (proto, _) => Some (src, dst, proto)
          end
      end
  end.

Definition printHelp (st : t) : t :=
  write_cout st
    ("=== Symulator Routera IP ===" ++ Text.nl ++
     "Dostępne polecenia:" ++ Text.nl ++
     "  add <sieć> <brama> <metryka>  - dodaje trasę (np. add 192.168.1.0/24 192.168.1.1 10)" ++ Text.nl ++
     "  del <sieć>                    - usuwa trasę (np. del 192.168.1.0/24)" ++ Text.nl ++
     "  show                          - pokazuje tablicę routingu" ++ Text.nl ++
     "  send <źródło> <cel> <prot>    - wysyła pakiet (np. send 10.0.0.1 192.168.1.100 ICMP)" ++ Text.nl ++
     "  help                          - pokazuje tę pomoc" ++ Text.nl ++
     "  exit                          - kończy program" ++ Text.nl).

Section Handlers.
Variable order : site -> eval_order.

Definition handleAdd (ss : string) (st : t) : t * result unit :=
  match read_add_args ss with
  | None =>
      (write_cout st ("Użycie: add <sieć> <brama> <metryka>" ++ Text.nl), Ok tt)
  | Some (net, gw, m) =>
      match both (order site_route_args)
                 (IPAddress.make order net) (IPAddress.make order gw) with
      | Throw e => (st, Throw e)
      | Ok (n, g) =>
          let st := set_table st (RoutingTable.addRoute (table st) (Route.mk n g m)) in
          let st := write_cout st ("Dodano trasę." ++ Text.nl) in
          let st := write_log st ("ADD " ++ net ++ " przez " ++ gw ++
                                  " metryka " ++ Text.decimal m ++ Text.nl) in
          (st, Ok tt)
      end
  end.

Definition handleDelete (ss : string) (st : t) : t * result unit :=
  match extract_string ss with
  | None => (write_cout st ("Użycie: del <sieć>" ++ Text.nl), Ok tt)
  | Some (net, _) =>
      match IPAddress.make order net with
      | Throw e => (st, Throw e)
      | Ok n =>
          let '(routes, said) := RoutingTable.removeRoute (table st) n in
          let st := write_cout (set_table st routes) said in
          let st := write_log st ("DEL " ++ net ++ Text.nl) in
          (st, Ok tt)
      end
  end.

Definition handleSend (ss : string) (st : t) : t * result unit :=
  match read_send_args ss with
  | None =>
      (write_cout st ("Użycie: send <źródło> <cel> <protokół>" ++ Text.nl), Ok tt)
  | Some (src, dst, proto) =>
      match both (order site_packet_args)
                 (IPAddress.make order src) (IPAddress.make order dst) with
      | Throw e => (st, Throw e)
      | Ok (s, d) =>
          let pkt := Packet.mk s d proto in
          let st := write_cout st (Packet.toString pkt ++ Text.nl) in
          match RoutingTable.findRoute (table st) (Packet.getDestination pkt) with
          | Throw e => (st, Throw e)
          | Ok (Some r) =>
              let gw := IPAddress.toString (Route.getGateway r) in
              let st := write_cout st ("Przekazuję pakiet przez bramę: " ++ gw ++ Text.nl) in
              let st := write_log st ("FWD " ++ Packet.toString pkt ++ " przez " ++
                                      gw ++ Text.nl) in
              (st, Ok tt)
          | Ok None =>
              let st := write_cout st ("Pakiet został odrzucony (brak odpowiedniej trasy)."
                                       ++ Text.nl) in
              let st := write_log st ("DROP " ++ Packet.toString pkt ++ Text.nl) in
              (st, Ok tt)
          end
      end
  end.

(** [catch (const exception& e)] around the dispatch. *)
Definition catch (r : t * result unit) : t :=
  match r with
  | (st, Ok _) => st
  | (st, Throw e) => write_cout st ("Błąd: " ++ what e ++ Text.nl)
  end.

(** [ss >> op]: a failed extraction leaves [op] empty. *)
Definition read_op (cmd : string) : string * string :=
  match extract_string cmd with
  | Some (op, rest) => (op, rest)
  | None => (EmptyString, EmptyString)
  end.

(** The body of the loop of [run] for a line [cmd] read from [cin]:
    the state after it, and whether the loop goes on.  Only [show] has
    more than one possible outcome, through [std::sort]. *)
Inductive run_line (st : t) (cmd : string) : t -> bool -> Prop :=
| line_add rest :
    read_op cmd = ("add", rest) ->
    run_line st cmd (catch (handleAdd rest st)) true
| line_del rest :
    read_op cmd = ("del", rest) ->
    run_line st cmd (catch (handleDelete rest st)) true
| line_show rest text :
    read_op cmd = ("show", rest) ->
    RoutingTable.print (table st) text ->
    run_line st cmd (write_cout st text) true
| line_send rest :
    read_op cmd = ("send", rest) ->
    run_line st cmd (catch (handleSend rest st)) true
| line_help rest :
    read_op cmd = ("help", rest) ->
    run_line st cmd (printHelp st) true
| line_exit rest :
    read_op cmd = ("exit", rest) ->
    run_line st cmd st false
| line_unknown op rest :
    read_op cmd = (op, rest) ->
    ~ In op ["add"; "del"; "show"; "send"; "help"; "exit"] ->
    run_line st cmd
      (write_cout st ("Nieznane polecenie. Wpisz 'help' aby zobaczyć dostępne komendy."
                      ++ Text.nl)) true.

(** The loop of [run] on the lines that [cin] still holds: it ends at
    end of input or at [exit]. *)
Inductive run_loop : t -> list string -> t -> Prop :=
| loop_eof st :
    run_loop st [] (write_cout st (Text.nl ++ "> "))
| loop_exit st cmd more st' :
    run_line (write_cout st (Text.nl ++ "> ")) cmd st' false ->
    run_loop st (cmd :: more) st'
| loop_next st cmd more st' st'' :
    run_line (write_cout st (Text.nl ++ "> ")) cmd st' true ->
    run_loop st' more st'' ->
    run_loop st (cmd :: more) st''.

Definition run (st : t) (lines : list string) (st' : t) : Prop :=
  run_loop (printHelp st) lines st'.

End Handlers.

End RouterCLI.

(* ================================================================== *)
(** * main *)

(** [main]: a router with an empty table runs on the lines of standard
    input.  The log file is opened for appending: [old_log] is what it held
    before. *)
Definition main (order : site -> eval_order) (old_log : string) (lines : list string)
           (final : RouterCLI.t) : Prop :=
  RouterCLI.run order (RouterCLI.mk [] old_log "") lines final.


(* ================================================================== *)
(** * Definitions for the statements

    Nothing below is part of the program: these are the predicates and
    reference functions that the lemmas and theorems are stated with. *)

(** [E] is the first entry of [routes], in the order of the vector, among
    those of the longest prefix that match [dest]. *)
Definition first_longest_match (routes : RoutingTable.t) (dest : IPAddress.t) (E : Route.t)
  : Prop :=
  exists before after,
    routes = (before ++ E :: after)%list /\
    Route.matches E dest = Ok true /\
    (forall r, In r before -> Route.matches r dest = Ok true ->
               IPAddress.prefix (Route.network r) < IPAddress.prefix (Route.network E)) /\
    (forall r, In r after -> Route.matches r dest = Ok true ->
               IPAddress.prefix (Route.network r) <= IPAddress.prefix (Route.network E)).

(** What the loop of [findRoute] knows of the routes it has seen. *)
Definition scanned (seen : RoutingTable.t) (dest : IPAddress.t) (best : option Route.t) : Prop :=
  match best with
  | None => forall r, In r seen -> Route.matches r dest = Ok false
  | Some E => first_longest_match seen dest E
  end.



(** The next character, if any, is not a digit. *)
Definition stops_number (s : string) : Prop :=
  match s with
  | String c _ => Text.isdigit c = false
  | EmptyString => True
  end.

Fixpoint all_chars (P : ascii -> bool) (s : string) : bool :=
  match s with
  | EmptyString => true
  | String c s' => P c && all_chars P s'
  end.

(** Neither NUL, nor a slash, nor white space. *)
Definition plain (c : ascii) : bool :=
  negb (Ascii.eqb c zero) && negb (Ascii.eqb c "/"%char) && negb (Text.isspace c).

Definition no_space (c : ascii) : bool := negb (Text.isspace c).

Definition not_nul (c : ascii) : bool := negb (Ascii.eqb c zero).

(** The text [a.b.c.d] followed by [suffix]. *)
Definition quad_text (a b c d : Z) (suffix : string) : string :=
  (Text.decimal a ++ "." ++ Text.decimal b ++ "." ++ Text.decimal c ++ "." ++
   Text.decimal d ++ suffix)%string.

(** [(a << 24) | (b << 16) | (c << 8) | d] as [ipToUint] returns it. *)
Definition quad_value (a b c d : Z) : Z :=
  Int.to_uint32 (Z.lor (Z.lor (Z.lor (shl_int a 24) (shl_int b 16)) (shl_int c 8)) d).

(** The stable sort the specification describes: an insertion sort that
    puts an entry in front of the first one whose metric is not smaller. *)
Fixpoint insert_by_metric (r : Route.t) (l : list Route.t) : list Route.t :=
  match l with
  | [] => [r]
  | x :: l' =>
      if RoutingTable.by_metric x r then x :: insert_by_metric r l' else r :: l
  end.

Fixpoint stable_sort_by_metric (l : list Route.t) : list Route.t :=
  match l with
  | [] => []
  | r :: l' => insert_by_metric r (stable_sort_by_metric l')
  end.

Definition ascending : Route.t -> Route.t -> Prop :=
  fun a b => RoutingTable.by_metric b a = false.

(** A decision procedure for rearrangements of lists of numbers, used to
    check concrete outcomes of [std::sort]. *)
Fixpoint remove_one (x : nat) (l : list nat) : option (list nat) :=
  match l with
  | [] => None
  | y :: l' =>
      if Nat.eqb x y then Some l'
      else match remove_one x l' with
           | Some r => Some (y :: r)
           | None => None
           end
  end.

Fixpoint is_rearrangement (l1 l2 : list nat) : bool :=
  match l1 with
  | [] => match l2 with [] => true | _ => false end
  | x :: l1' =>
      match remove_one x l2 with
      | Some l2' => is_rearrangement l1' l2'
      | None => false
      end
  end.

(** Seventeen routes to one network with one metric, told apart by their
    gateways 192.168.1.0 ... 192.168.1.16. *)
Definition same_metric_route (i : nat) : Route.t :=
  Route.mk (IPAddress.mk 167772160 8) (IPAddress.mk (3232235776 + Z.of_nat i) 32) 10.

Definition table17 : RoutingTable.t := map same_metric_route (seq 0 17).

(** The order in which the [std::sort] of libstdc++ leaves them: with more
    than sixteen elements it starts with a partition step, which swaps
    equal elements. *)
Definition shuffled17 : list Route.t :=
  map same_metric_route [8; 16; 15; 14; 13; 12; 11; 10; 9; 0; 7; 6; 5; 4; 3; 2; 1]%nat.

Definition print_text (sorted : list Route.t) : string :=
  ("Aktualna tablica routingu:" ++ Text.nl ++
   String.concat "" (map RoutingTable.print_line sorted))%string.

(** The three commands that build addresses from text. *)
Inductive command : Type := cmd_add | cmd_del | cmd_send.

Definition handle (order : site -> eval_order) (c : command)
  : string -> RouterCLI.t -> RouterCLI.t * result unit :=
  match c with
  | cmd_add => RouterCLI.handleAdd order
  | cmd_del => RouterCLI.handleDelete order
  | cmd_send => RouterCLI.handleSend order
  end.


(** [pre] is the beginning of [s]. *)
Definition extends (pre s : string) : Prop := exists more, s = (pre ++ more)%string.

(* ================================================================== *)
(** * Facts about the utilities *)

Lemma result_bind_ok {A B : Type} (x : result A) (f : A -> result B) (b : B) :
  bind x f = Ok b -> exists a, x = Ok a /\ f a = Ok b.
Proof. destruct x as [a|e]; simpl; intros H; [eauto | discriminate]. Qed.

Lemma both_ok {A B : Type} (o : eval_order) (x : result A) (y : result B) a b :
  both o x y = Ok (a, b) <-> x = Ok a /\ y = Ok b.
Proof.
  destruct o, x, y; simpl; split; intros H;
    solve [ discriminate
          | destruct H; discriminate
          | inversion H; subst; auto
          | destruct H as [Hx Hy]; congruence ].
Qed.

Lemma both_throw {A B : Type} (o : eval_order) (x : result A) (y : result B) e :
  both o x y = Throw e -> x = Throw e \/ y = Throw e.
Proof. destruct o, x, y; simpl; intros H; inversion H; auto. Qed.

Lemma to_uint32_range (x : Z) : 0 <= Int.to_uint32 x < 2 ^ 32.
Proof. unfold Int.to_uint32. apply Z.mod_pos_bound. lia. Qed.

Lemma to_int_range (x : Z) : Int.in_int (Int.to_int x) = true.
Proof.
  unfold Int.in_int, Int.to_int, Int.INT_MIN, Int.INT_MAX.
  pose proof (Z.mod_pos_bound (x + 2 ^ 31) (2 ^ 32) ltac:(lia)).
  apply andb_true_iff; split; apply Z.leb_le; lia.
Qed.

Lemma prefix_cases (p : Z) :
  0 <= p <= 32 -> exists n : nat, p = Z.of_nat n /\ (n <= 32)%nat.
Proof. intros H. exists (Z.to_nat p). lia. Qed.

(** The mask of a prefix [p] has its [p] high bits set. *)
Lemma maskFromPrefix_value (p : Z) :
  0 <= p <= 32 -> maskFromPrefix p = Ok (2 ^ 32 - 2 ^ (32 - p)).
Proof.
  intros H. destruct (prefix_cases p H) as (n & -> & Hn).
  do 33 (destruct n as [|n]; [vm_compute; reflexivity|]).
  lia.
Qed.

Lemma maskFromPrefix_throws (p : Z) :
  p < 0 \/ 32 < p -> maskFromPrefix p = Throw bad_prefix.
Proof.
  intros H. unfold maskFromPrefix.
  destruct (p <? 0) eqn:E1; [reflexivity|].
  destruct (p >? 32) eqn:E2; [reflexivity|].
  apply Z.ltb_ge in E1. rewrite Z.gtb_ltb in E2. apply Z.ltb_ge in E2. lia.
Qed.

Lemma maskFromPrefix_ok_inv (p m : Z) :
  maskFromPrefix p = Ok m -> 0 <= p <= 32 /\ m = 2 ^ 32 - 2 ^ (32 - p).
Proof.
  intros H.
  assert (Hp : 0 <= p <= 32).
  { destruct (Z.lt_ge_cases p 0) as [L|L];
      [rewrite maskFromPrefix_throws in H by lia; discriminate|].
    destruct (Z.lt_ge_cases 32 p) as [G|G];
      [rewrite maskFromPrefix_throws in H by lia; discriminate|]. lia. }
  split; [exact Hp|]. rewrite maskFromPrefix_value in H by exact Hp. congruence.
Qed.

Lemma mask_range (p : Z) : 0 <= p <= 32 -> 0 <= 2 ^ 32 - 2 ^ (32 - p) < 2 ^ 32.
Proof.
  intros H.
  assert (0 < 2 ^ (32 - p)) by (apply Z.pow_pos_nonneg; lia).
  assert (2 ^ (32 - p) <= 2 ^ 32) by (apply Z.pow_le_mono_r; lia).
  lia.
Qed.

Lemma mask_as_shift (p : Z) :
  0 <= p <= 32 -> 2 ^ 32 - 2 ^ (32 - p) = Z.shiftl (Z.ones p) (32 - p).
Proof.
  intros Hp. rewrite Z.shiftl_mul_pow2 by lia. rewrite Z.ones_equiv.
  replace (Z.pred (2 ^ p)) with (2 ^ p - 1) by lia.
  rewrite Z.mul_sub_distr_r, <- Z.pow_add_r by lia.
  replace (p + (32 - p)) with 32 by lia. lia.
Qed.

Lemma mask_testbit (p i : Z) :
  0 <= p <= 32 -> 0 <= i ->
  Z.testbit (2 ^ 32 - 2 ^ (32 - p)) i = (32 - p <=? i) && (i <? 32).
Proof.
  intros Hp Hi. rewrite mask_as_shift by exact Hp.
  rewrite Z.shiftl_spec by exact Hi.
  destruct (Z.leb_spec (32 - p) i) as [L|G]; cbn [andb].
  - rewrite Z.testbit_ones by lia.
    destruct (Z.ltb_spec i 32), (Z.ltb_spec (i - (32 - p)) p), (Z.leb_spec 0 (i - (32 - p)));
      try reflexivity; lia.
  - apply Z.testbit_neg_r. lia.
Qed.

Lemma land_range (a m : Z) : 0 <= a < 2 ^ 32 -> 0 <= Z.land a m < 2 ^ 32.
Proof.
  intros Ha.
  assert (E : Z.land a m = Z.land a m mod 2 ^ 32).
  { rewrite <- (Z.land_ones _ 32) by lia.
    rewrite <- Z.land_assoc, (Z.land_comm m), Z.land_assoc.
    rewrite (Z.land_ones a 32) by lia. rewrite Z.mod_small by lia. reflexivity. }
  rewrite E. apply Z.mod_pos_bound. lia.
Qed.

Lemma land_idem (a m : Z) : Z.land (Z.land a m) m = Z.land a m.
Proof. rewrite <- Z.land_assoc, Z.land_diag. reflexivity. Qed.

Lemma ipToUint_range (ip : string) (a : Z) : ipToUint ip = Ok a -> 0 <= a < 2 ^ 32.
Proof.
  unfold ipToUint. intros H.
  destruct (sscanf_dotted_quad (Text.c_str ip)) as [|p0 [|p1 [|p2 [|p3 [|? ?]]]]];
    try discriminate.
  inversion H; subst. apply to_uint32_range.
Qed.

Lemma stoi_range (s : string) (v : Z) : stoi s = Ok v -> Int.in_int v = true.
Proof.
  unfold stoi. destruct (Text.scan_decimal (Text.c_str s)) as [[w rest]|]; [|discriminate].
  destruct (Int.in_int w) eqn:E; [|discriminate]. intros H; inversion H; subst. exact E.
Qed.

(** What the constructor does, read off a successful call: the prefix is
    the default 32 or the number after the first slash, and the address is
    the scanned dotted quad cut to the prefix. *)
Lemma make_ok_inv (order : site -> eval_order) (cidr : string) (ip : IPAddress.t) :
  IPAddress.make order cidr = Ok ip ->
  exists raw mask,
    (match Text.find "/"%char cidr with
     | None => IPAddress.prefix ip = 32
     | Some i => stoi (Text.substr cidr (S i) None) = Ok (IPAddress.prefix ip)
     end) /\
    ipToUint (Text.substr cidr 0 (Text.find "/"%char cidr)) = Ok raw /\
    maskFromPrefix (IPAddress.prefix ip) = Ok mask /\
    IPAddress.addr ip = Z.land raw mask.
Proof.
  unfold IPAddress.make. intros H.
  apply result_bind_ok in H. destruct H as (p & Hp & H).
  apply result_bind_ok in H. destruct H as ([a m] & Ham & H).
  apply both_ok in Ham. destruct Ham as [Ha Hm].
  unfold ret in H. inversion H; subst; simpl.
  exists a, m. repeat split; auto.
  destruct (Text.find "/"%char cidr); [exact Hp | congruence].
Qed.

(** Every address the constructor builds satisfies the class invariant. *)
Lemma make_valid (order : site -> eval_order) (cidr : string) (ip : IPAddress.t) :
  IPAddress.make order cidr = Ok ip -> IPAddress.valid ip.
Proof.
  intros H. destruct (make_ok_inv _ _ _ H) as (raw & mask & _ & Hraw & Hmask & Haddr).
  destruct (maskFromPrefix_ok_inv _ _ Hmask) as [Hp Hm].
  apply ipToUint_range in Hraw.
  unfold IPAddress.valid. repeat split; try lia.
  - rewrite Haddr. apply land_range; lia.
  - rewrite Haddr. apply land_range; lia.
  - exists mask. split; [exact Hmask|]. rewrite Haddr. apply land_idem.
Qed.

Lemma matches_valid (self other : IPAddress.t) :
  0 <= IPAddress.prefix self <= 32 ->
  IPAddress.matches self other =
  Ok (Z.land (IPAddress.addr other) (2 ^ 32 - 2 ^ (32 - IPAddress.prefix self))
      =? IPAddress.addr self).
Proof.
  intros H. unfold IPAddress.matches. rewrite maskFromPrefix_value by exact H.
  reflexivity.
Qed.

(** The order of evaluation cannot change a successful construction. *)
Lemma make_order_irrelevant (o1 o2 : site -> eval_order) (cidr : string) (ip : IPAddress.t) :
  IPAddress.make o1 cidr = Ok ip -> IPAddress.make o2 cidr = Ok ip.
Proof.
  unfold IPAddress.make. intros H.
  apply result_bind_ok in H. destruct H as (p & Hp & H). rewrite Hp. simpl.
  apply result_bind_ok in H. destruct H as ([a m] & Ham & H).
  apply both_ok in Ham.
  assert (E : both (o2 site_addr_and_mask) (ipToUint (Text.substr cidr 0 (Text.find "/"%char cidr)))
                (maskFromPrefix p) = Ok (a, m)) by (apply both_ok; exact Ham).
  rewrite E. exact H.
Qed.

(* ================================================================== *)
(** * Facts about the routing table *)

Lemma route_matches_valid (r : Route.t) (dest : IPAddress.t) :
  Route.valid r -> exists b, Route.matches r dest = Ok b.
Proof.
  intros (Hn & _). destruct Hn as (Hp & _).
  unfold Route.matches. rewrite matches_valid by exact Hp. eauto.
Qed.

Lemma scanned_step (seen : RoutingTable.t) (dest : IPAddress.t) (best : option Route.t)
      (r : Route.t) :
  Route.valid r -> scanned seen dest best ->
  exists best', RoutingTable.findRoute_step dest best r = Ok best' /\
                scanned (seen ++ [r]) dest best'.
Proof.
  intros Hr Hs. destruct (route_matches_valid r dest Hr) as [b Hb].
  unfold RoutingTable.findRoute_step. rewrite Hb. simpl.
  destruct b.
  - destruct best as [E|].
    + unfold IPAddress.getPrefix, Route.getNetwork.
      destruct Hs as (before & after & Hsplit & HE & Hlt & Hle).
      destruct (Z.gtb_spec (IPAddress.prefix (Route.network r))
                           (IPAddress.prefix (Route.network E))) as [G|G].
      * eexists; split; [reflexivity|].
        exists seen, []. repeat split; auto.
        -- intros x Hx Hm. subst seen.
           apply in_app_or in Hx. destruct Hx as [Hx|[Hx|Hx]].
           ++ specialize (Hlt x Hx Hm). lia.
           ++ subst x. lia.
           ++ specialize (Hle x Hx Hm). lia.
        -- intros x [].
      * eexists; split; [reflexivity|].
        exists before, (after ++ [r])%list. repeat split; auto.
        -- subst seen. rewrite <- app_assoc. reflexivity.
        -- intros x Hx Hm. apply in_app_or in Hx. destruct Hx as [Hx|[Hx|[]]].
           ++ apply Hle; assumption.
           ++ subst x. lia.
    + eexists; split; [reflexivity|].
      exists seen, []. repeat split; auto.
      * intros x Hx Hm. rewrite (Hs x Hx) in Hm. discriminate.
      * intros x [].
  - eexists; split; [reflexivity|].
    destruct best as [E|]; simpl in *.
    + destruct Hs as (before & after & Hsplit & HE & Hlt & Hle).
      exists before, (after ++ [r])%list. repeat split; auto.
      * subst seen. rewrite <- app_assoc. reflexivity.
      * intros x Hx Hm. apply in_app_or in Hx. destruct Hx as [Hx|[Hx|[]]].
        -- apply Hle; assumption.
        -- subst x. rewrite Hb in Hm. discriminate.
    + intros x Hx. apply in_app_or in Hx. destruct Hx as [Hx|[Hx|[]]]; [auto | subst; auto].
Qed.

Lemma findRoute_loop_scanned (rest : RoutingTable.t) :
  RoutingTable.valid rest ->
  forall (seen : RoutingTable.t) (dest : IPAddress.t) (best : option Route.t),
    scanned seen dest best ->
    exists res, RoutingTable.findRoute_loop dest best rest = Ok res /\
                scanned (seen ++ rest) dest res.
Proof.
  induction 1 as [|r rest Hr Hrest IH]; intros seen dest best Hs.
  - exists best. rewrite app_nil_r. split; [reflexivity | exact Hs].
  - destruct (scanned_step seen dest best r Hr Hs) as (best' & Hstep & Hs').
    destruct (IH _ _ _ Hs') as (res & Hres & Hfin).
    exists res. simpl. rewrite Hstep. simpl. split; [exact Hres|].
    rewrite <- app_assoc in Hfin. exact Hfin.
Qed.

Lemma findRoute_scanned (routes : RoutingTable.t) (dest : IPAddress.t) :
  RoutingTable.valid routes ->
  exists res, RoutingTable.findRoute routes dest = Ok res /\ scanned routes dest res.
Proof.
  intros Hv.
  destruct (findRoute_loop_scanned routes Hv [] dest None) as (res & Hres & Hs).
  - intros r [].
  - exists res. split; assumption.
Qed.


(* ------------------------------------------------------------------ *)
(** ** removeRoute *)

Lemma IPAddress_eqb_eq (a b : IPAddress.t) : IPAddress.eqb a b = true <-> a = b.
Proof.
  unfold IPAddress.eqb. rewrite andb_true_iff, !Z.eqb_eq.
  destruct a, b; simpl. split.
  - intros [-> ->]. reflexivity.
  - intros H. inversion H. auto.
Qed.

Lemma IPAddress_eqb_fields (a b : IPAddress.t) :
  IPAddress.eqb a b = true <->
  IPAddress.addr a = IPAddress.addr b /\ IPAddress.prefix a = IPAddress.prefix b.
Proof. unfold IPAddress.eqb. rewrite andb_true_iff, !Z.eqb_eq. reflexivity. Qed.

Lemma filter_length_le {A : Type} (p : A -> bool) (l : list A) :
  (List.length (filter p l) <= List.length l)%nat.
Proof. induction l as [|x l IH]; simpl; [lia|]. destruct (p x); simpl; lia. Qed.

Lemma filter_full {A : Type} (p : A -> bool) (l : list A) :
  List.length (filter p l) = List.length l -> filter p l = l.
Proof.
  induction l as [|x l IH]; simpl; intros H; [reflexivity|].
  destruct (p x); simpl in H.
  - f_equal. apply IH. lia.
  - pose proof (filter_length_le p l). lia.
Qed.

Lemma filter_short_exists {A : Type} (p : A -> bool) (l : list A) :
  (List.length (filter (fun x => negb (p x)) l) < List.length l)%nat <->
  existsb p l = true.
Proof.
  induction l as [|x l IH]; simpl; [split; [lia | discriminate]|].
  pose proof (filter_length_le (fun x => negb (p x)) l).
  destruct (p x); simpl; [split; [reflexivity | lia]|].
  rewrite <- IH. lia.
Qed.

Lemma remove_if_spec {A : Type} (pred : A -> bool) (v : list A) :
  let kept := filter (fun x => negb (pred x)) v in
  let '(v1, it) := RoutingTable.remove_if pred v in
  it = List.length kept /\
  List.length v1 = List.length v /\
  RoutingTable.erase_from it v1 = kept /\
  (it = List.length v1 -> v1 = v /\ kept = v).
Proof.
  unfold RoutingTable.remove_if, RoutingTable.erase_from.
  set (kept := filter (fun x => negb (pred x)) v). simpl.
  pose proof (filter_length_le (fun x => negb (pred x)) v) as Hle. fold kept in Hle.
  assert (Hlen : List.length (kept ++ skipn (List.length kept) v) = List.length v).
  { rewrite length_app, length_skipn. lia. }
  repeat split.
  - exact Hlen.
  - rewrite firstn_app, firstn_all, Nat.sub_diag, firstn_O, app_nil_r. reflexivity.
  - rewrite Hlen in H. rewrite H, skipn_all, app_nil_r. apply filter_full. exact H.
  - rewrite Hlen in H. apply filter_full. exact H.
Qed.

(** [removeRoute] keeps, in their order, the entries whose network differs
    from the argument, and tells on [cout] whether one was removed. *)
Lemma removeRoute_filter (routes : RoutingTable.t) (network : IPAddress.t) :
  RoutingTable.removeRoute routes network =
  (filter (fun r => negb (IPAddress.eqb (Route.network r) network)) routes,
   if existsb (fun r => IPAddress.eqb (Route.network r) network) routes
   then ("Trasa została usunięta." ++ Text.nl)%string
   else ("Nie znaleziono podanej trasy." ++ Text.nl)%string).
Proof.
  unfold RoutingTable.removeRoute, Route.getNetwork.
  set (p := fun r => IPAddress.eqb (Route.network r) network).
  change (filter (fun r => negb (IPAddress.eqb (Route.network r) network)) routes)
    with (filter (fun x => negb (p x)) routes).
  pose proof (remove_if_spec p routes) as Hspec.
  pose proof (filter_short_exists p routes) as Hex.
  destruct (RoutingTable.remove_if p routes) as [v1 it].
  simpl in Hspec. destruct Hspec as (Hit & Hlen & Herase & Hsame).
  destruct (Nat.eqb_spec it (List.length v1)) as [E|N]; simpl.
  - destruct (Hsame E) as [-> Hk]. rewrite Hk.
    destruct (existsb p routes); [|reflexivity].
    assert (List.length (filter (fun x => negb (p x)) routes) < List.length routes)%nat
      by (apply Hex; reflexivity).
    rewrite Hk in H. lia.
  - rewrite Herase.
    destruct (existsb p routes); [reflexivity|].
    pose proof (filter_length_le (fun x => negb (p x)) routes).
    assert (List.length (filter (fun x => negb (p x)) routes) < List.length routes)%nat
      by lia.
    apply Hex in H0. discriminate.
Qed.

(* ================================================================== *)
(** * Reading back what [ostream <<] prints *)

Module TextFacts.

Import Text.

Lemma digit_char_spec (d : Z) :
  0 <= d <= 9 ->
  isdigit (digit_char d) = true /\ digit_value (digit_char d) = d /\
  isspace (digit_char d) = false /\ digit_char d <> "-"%char /\
  digit_char d <> "+"%char /\ digit_char d <> "/"%char /\
  digit_char d <> "."%char /\ digit_char d <> zero.
Proof.
  intros H.
  assert (C : d = 0 \/ d = 1 \/ d = 2 \/ d = 3 \/ d = 4 \/ d = 5 \/ d = 6 \/
              d = 7 \/ d = 8 \/ d = 9) by lia.
  repeat (destruct C as [->|C]); try subst d;
    (repeat split; try reflexivity; intros E; discriminate E).
Qed.

Lemma digits_app (fuel : nat) :
  forall n acc rest, (digits fuel n acc ++ rest)%string = digits fuel n (acc ++ rest)%string.
Proof.
  induction fuel as [|fuel IH]; intros n acc rest; simpl; [reflexivity|].
  destruct (n <? 10); [reflexivity|]. rewrite IH. reflexivity.
Qed.

Lemma digits_S (fuel : nat) (n : Z) (acc : string) :
  digits (S fuel) n acc =
  if n <? 10 then String (digit_char (n mod 10)) acc
  else digits fuel (n / 10) (String (digit_char (n mod 10)) acc).
Proof. reflexivity. Qed.

Lemma scan_digits_digit (a : Z) (seen : bool) (c : ascii) (s : string) :
  isdigit c = true ->
  scan_digits a seen (String c s) = scan_digits (10 * a + digit_value c) true s.
Proof. intros H. cbn [scan_digits]. rewrite H. reflexivity. Qed.

Ltac same_accumulator tac :=
  match goal with
  | |- scan_digits ?x _ _ = scan_digits ?y _ _ =>
      replace x with y by tac; reflexivity
  end.

(** Scanning the digits of [n] multiplies what was accumulated by a power
    of ten and adds [n]. *)
Lemma scan_digits_digits (fuel : nat) :
  forall n, 0 <= n < 10 ^ Z.of_nat (S fuel) ->
  exists k, forall a seen acc,
    scan_digits a seen (digits (S fuel) n acc) = scan_digits (a * k + n) true acc.
Proof.
  induction fuel as [|fuel IH]; intros n Hn.
  - exists 10. intros a seen acc. change (10 ^ Z.of_nat 1) with 10 in Hn.
    rewrite digits_S.
    assert (Hlt : (n <? 10) = true) by (apply Z.ltb_lt; lia). rewrite Hlt.
    rewrite Z.mod_small by lia.
    destruct (digit_char_spec n ltac:(lia)) as (Hd & Hv & _).
    rewrite scan_digits_digit by exact Hd. rewrite Hv. same_accumulator lia.
  - destruct (Z.ltb_spec n 10) as [L|G].
    + exists 10. intros a seen acc. rewrite digits_S.
      assert (Hlt : (n <? 10) = true) by (apply Z.ltb_lt; lia). rewrite Hlt.
      rewrite Z.mod_small by lia.
      destruct (digit_char_spec n ltac:(lia)) as (Hd & Hv & _).
      rewrite scan_digits_digit by exact Hd. rewrite Hv. same_accumulator lia.
    + destruct (IH (n / 10)) as [k Hk].
      { split; [apply Z.div_pos; lia|].
        apply Z.div_lt_upper_bound; [lia|].
        replace (Z.of_nat (S (S fuel))) with (1 + Z.of_nat (S fuel)) in Hn by lia.
        rewrite Z.pow_add_r in Hn by lia. lia. }
      exists (10 * k). intros a seen acc. rewrite (digits_S (S fuel)).
      assert (Hlt : (n <? 10) = false) by (apply Z.ltb_ge; lia). rewrite Hlt.
      rewrite Hk.
      pose proof (Z.mod_pos_bound n 10 ltac:(lia)) as Hm.
      destruct (digit_char_spec (n mod 10) ltac:(lia)) as (Hd & Hv & _).
      rewrite scan_digits_digit by exact Hd. rewrite Hv.
      pose proof (Z.div_mod n 10 ltac:(lia)) as E.
      set (q := n / 10) in *. set (r := n mod 10) in *.
      same_accumulator ltac:(rewrite E; ring).
Qed.

Lemma fuel_enough (n : Z) : 0 <= n -> n < 10 ^ Z.of_nat (S (Z.to_nat (Z.log2 n))).
Proof.
  intros H. pose proof (Z.log2_nonneg n) as Hl.
  replace (Z.of_nat (S (Z.to_nat (Z.log2 n)))) with (Z.succ (Z.log2 n)) by lia.
  destruct (Z.eq_dec n 0) as [->|Hz]; [reflexivity|].
  assert (n < 2 ^ Z.succ (Z.log2 n)) by (apply Z.log2_spec; lia).
  assert (2 ^ Z.succ (Z.log2 n) <= 10 ^ Z.succ (Z.log2 n))
    by (apply Z.pow_le_mono_l; lia).
  lia.
Qed.

Lemma scan_digits_stop (v : Z) (seen : bool) (rest : string) :
  stops_number rest -> scan_digits v seen rest = (v, seen, rest).
Proof. destruct rest as [|c s]; simpl; [reflexivity|]. intros ->. reflexivity. Qed.

(** The head of a printed number is a digit. *)
Lemma digits_head (fuel : nat) :
  forall n acc, 0 <= n ->
    exists d s, digits (S fuel) n acc = String (digit_char d) s /\ 0 <= d <= 9.
Proof.
  induction fuel as [|fuel IH]; intros n acc Hn.
  - simpl. exists (n mod 10), acc.
    pose proof (Z.mod_pos_bound n 10 ltac:(lia)).
    split; [destruct (n <? 10); reflexivity | lia].
  - change (digits (S (S fuel)) n acc)
      with (let acc' := String (digit_char (n mod 10)) acc in
            if n <? 10 then acc' else digits (S fuel) (n / 10) acc').
    cbv zeta. destruct (n <? 10).
    + exists (n mod 10), acc. pose proof (Z.mod_pos_bound n 10 ltac:(lia)).
      split; [reflexivity | lia].
    + apply IH. apply Z.div_pos; lia.
Qed.

Lemma scan_decimal_minus (t : string) :
  scan_decimal (String "-"%char t) =
  match scan_digits 0 false t with
  | (v, true, rest) => Some (- v, rest)
  | (_, false, _) => None
  end.
Proof. reflexivity. Qed.

Lemma scan_decimal_digit (c : ascii) (s : string) :
  isdigit c = true ->
  scan_decimal (String c s) =
  match scan_digits 0 false (String c s) with
  | (v, true, rest) => Some (v, rest)
  | (_, false, _) => None
  end.
Proof.
  destruct c as [[] [] [] [] [] [] [] []]; intros H;
    solve [discriminate H | reflexivity].
Qed.

(** [scan_decimal] reads back a printed number in front of anything that
    does not go on with a digit. *)
Lemma scan_decimal_decimal (n : Z) (rest : string) :
  stops_number rest ->
  scan_decimal (decimal n ++ rest) = Some (n, rest).
Proof.
  intros Hrest. unfold decimal.
  destruct (Z.ltb_spec n 0) as [L|G].
  - change (String "-"%char (digits (S (Z.to_nat (Z.log2 (- n)))) (- n) "") ++ rest)%string
      with (String "-"%char (digits (S (Z.to_nat (Z.log2 (- n)))) (- n) "" ++ rest)%string).
    rewrite digits_app, scan_decimal_minus.
    assert (Hpos : 0 <= - n) by lia.
    destruct (scan_digits_digits _ (- n) (conj Hpos (fuel_enough (- n) Hpos))) as [k Hk].
    rewrite Hk. change ("" ++ rest)%string with rest.
    rewrite scan_digits_stop by exact Hrest.
    f_equal. f_equal. lia.
  - rewrite digits_app. change ("" ++ rest)%string with rest.
    destruct (scan_digits_digits _ n (conj G (fuel_enough n G))) as [k Hk].
    destruct (digits_head (Z.to_nat (Z.log2 n)) n rest G) as (d & s & Hs & Hd).
    destruct (digit_char_spec d Hd) as (Hdig & _).
    pose proof (scan_decimal_digit (digit_char d) s Hdig) as E.
    rewrite <- Hs in E. rewrite E, Hk.
    rewrite scan_digits_stop by exact Hrest. reflexivity.
Qed.

(** ** The characters of printed numbers *)

Lemma all_chars_app (P : ascii -> bool) (s t : string) :
  all_chars P (s ++ t) = all_chars P s && all_chars P t.
Proof.
  induction s as [|c s IH]; simpl; [reflexivity|].
  rewrite IH, andb_assoc. reflexivity.
Qed.

Lemma all_chars_digits (P : ascii -> bool) (fuel : nat) :
  (forall d, 0 <= d <= 9 -> P (digit_char d) = true) ->
  forall n acc, 0 <= n -> all_chars P acc = true ->
                all_chars P (digits fuel n acc) = true.
Proof.
  intros HP. induction fuel as [|fuel IH]; intros n acc Hn Hacc; [exact Hacc|].
  rewrite digits_S.
  pose proof (Z.mod_pos_bound n 10 ltac:(lia)) as Hm.
  assert (Hc : all_chars P (String (digit_char (n mod 10)) acc) = true).
  { simpl. rewrite HP by lia. exact Hacc. }
  destruct (n <? 10); [exact Hc|].
  apply IH; [apply Z.div_pos; lia | exact Hc].
Qed.

Lemma all_chars_decimal (P : ascii -> bool) (n : Z) :
  (forall d, 0 <= d <= 9 -> P (digit_char d) = true) ->
  P "-"%char = true ->
  all_chars P (decimal n) = true.
Proof.
  intros HP Hminus. unfold decimal. destruct (Z.ltb_spec n 0).
  - cbn [all_chars]. rewrite Hminus. cbn [andb]. apply all_chars_digits; auto. lia.
  - apply all_chars_digits; auto.
Qed.

Lemma plain_digit (d : Z) : 0 <= d <= 9 -> plain (digit_char d) = true.
Proof.
  intros H. destruct (digit_char_spec d H) as (_ & _ & Hsp & _ & _ & Hsl & _ & Hz).
  unfold plain. rewrite Hsp.
  apply Ascii.eqb_neq in Hsl, Hz. rewrite Hsl, Hz. reflexivity.
Qed.

Lemma plain_decimal (n : Z) : all_chars plain (decimal n) = true.
Proof. apply all_chars_decimal; [apply plain_digit | reflexivity]. Qed.

Lemma plain_no_space (s : string) : all_chars plain s = true -> all_chars no_space s = true.
Proof.
  induction s as [|c s IH]; simpl; [reflexivity|].
  rewrite !andb_true_iff. unfold plain at 1, no_space at 1.
  rewrite !andb_true_iff. intros [[[_ _] H] Hs]. auto.
Qed.

Lemma c_str_plain (s : string) : all_chars plain s = true -> c_str s = s.
Proof.
  induction s as [|c s IH]; simpl; [reflexivity|].
  rewrite andb_true_iff. unfold plain at 1. rewrite !andb_true_iff, !negb_true_iff.
  intros [[[Hz _] _] Hs]. rewrite Hz, IH by exact Hs. reflexivity.
Qed.

Lemma find_slash_plain (s t : string) :
  all_chars plain s = true ->
  find "/"%char (s ++ String "/"%char t) = Some (String.length s).
Proof.
  induction s as [|c s IH]; simpl; [reflexivity|].
  rewrite andb_true_iff. unfold plain at 1. rewrite !andb_true_iff, !negb_true_iff.
  intros [[[_ Hsl] _] Hs]. rewrite Hsl, IH by exact Hs. reflexivity.
Qed.

Lemma find_slash_none (s : string) :
  all_chars plain s = true -> find "/"%char s = None.
Proof.
  induction s as [|c s IH]; simpl; [reflexivity|].
  rewrite andb_true_iff. unfold plain at 1. rewrite !andb_true_iff, !negb_true_iff.
  intros [[[_ Hsl] _] Hs]. rewrite Hsl, IH by exact Hs. reflexivity.
Qed.

Lemma take_app (s t : string) : take (String.length s) (s ++ t) = s.
Proof. induction s as [|c s IH]; simpl; [destruct t; reflexivity | rewrite IH; reflexivity]. Qed.

Lemma take_all (s : string) : take (String.length s) s = s.
Proof. induction s as [|c s IH]; simpl; [reflexivity | rewrite IH; reflexivity]. Qed.

Lemma drop_app (s t : string) : drop (String.length s) (s ++ t) = t.
Proof. induction s as [|c s IH]; simpl; [reflexivity | exact IH]. Qed.

Lemma append_assoc (s t u : string) : ((s ++ t) ++ u = s ++ (t ++ u))%string.
Proof. induction s as [|c s IH]; simpl; [reflexivity | rewrite IH; reflexivity]. Qed.

Lemma append_nil_r (s : string) : (s ++ "")%string = s.
Proof. induction s as [|c s IH]; simpl; [reflexivity | rewrite IH; reflexivity]. Qed.

(** ** Words of an input line *)

Lemma take_word_word (w rest : string) :
  all_chars no_space w = true ->
  match rest with String c _ => isspace c = true | EmptyString => True end ->
  RouterCLI.take_word (w ++ rest) = (w, rest).
Proof.
  intros Hw Hrest. induction w as [|c w IH]; simpl.
  - destruct rest as [|c r]; simpl; [reflexivity|]. rewrite Hrest. reflexivity.
  - simpl in Hw. apply andb_true_iff in Hw. destruct Hw as [Hc Hw].
    unfold no_space in Hc. apply negb_true_iff in Hc. rewrite Hc, IH by exact Hw.
    reflexivity.
Qed.

Lemma extract_string_word (w rest : string) :
  w <> EmptyString ->
  all_chars no_space w = true ->
  match rest with String c _ => isspace c = true | EmptyString => True end ->
  RouterCLI.extract_string (w ++ rest) = Some (w, rest).
Proof.
  intros Hne Hw Hrest. unfold RouterCLI.extract_string.
  assert (Hskip : skip_space (w ++ rest) = (w ++ rest)%string).
  { destruct w as [|c w]; [congruence|]. simpl in Hw |- *.
    apply andb_true_iff in Hw. destruct Hw as [Hc _].
    unfold no_space in Hc. apply negb_true_iff in Hc. rewrite Hc. reflexivity. }
  rewrite Hskip, take_word_word by assumption.
  destruct w; [congruence | reflexivity].
Qed.

Lemma extract_string_skip (s : string) :
  RouterCLI.extract_string (String " "%char s) = RouterCLI.extract_string s.
Proof. reflexivity. Qed.

Lemma to_int_small (v : Z) : Int.in_int v = true -> Int.to_int (Int.clamp_long v) = v.
Proof.
  unfold Int.in_int, Int.INT_MIN, Int.INT_MAX, Int.clamp_long, Int.LONG_MIN, Int.LONG_MAX,
    Int.to_int.
  rewrite andb_true_iff, !Z.leb_le. intros [Hlo Hhi].
  rewrite Z.min_r, Z.max_r by lia. rewrite Z.mod_small by lia. lia.
Qed.

End TextFacts.

(* ================================================================== *)
(** * Dotted quads: printing and reading back *)

Lemma to_uint32_land (x : Z) : Int.to_uint32 x = Z.land x (Z.ones 32).
Proof. unfold Int.to_uint32. rewrite Z.land_ones by lia. reflexivity. Qed.

Lemma to_uint32_to_int (x : Z) : Int.to_uint32 (Int.to_int x) = Int.to_uint32 x.
Proof.
  unfold Int.to_uint32, Int.to_int.
  rewrite Zminus_mod_idemp_l.
  replace (x + 2 ^ 31 - 2 ^ 31) with x by lia. reflexivity.
Qed.

Lemma to_uint32_lor (x y : Z) :
  Int.to_uint32 (Z.lor x y) = Z.lor (Int.to_uint32 x) (Int.to_uint32 y).
Proof. rewrite !to_uint32_land. apply Z.land_lor_distr_l. Qed.

(** Without the conversions to [int]: the low 32 bits of the combined
    shifts. *)
Lemma quad_value_bits (a b c d : Z) :
  quad_value a b c d =
  Z.land (Z.lor (Z.lor (Z.lor (Z.shiftl a 24) (Z.shiftl b 16)) (Z.shiftl c 8)) d) (Z.ones 32).
Proof.
  unfold quad_value, shl_int.
  rewrite !to_uint32_lor, !to_uint32_to_int, <- !to_uint32_lor.
  apply to_uint32_land.
Qed.

Lemma lor_disjoint (x y : Z) : Z.land x y = 0 -> Z.lor x y = x + y.
Proof. intros H. pose proof (Z.add_lor_land x y). lia. Qed.

(** For octets the value is the usual big-endian number. *)
Lemma quad_value_octets (a b c d : Z) :
  0 <= a <= 255 -> 0 <= b <= 255 -> 0 <= c <= 255 -> 0 <= d <= 255 ->
  quad_value a b c d = a * 2 ^ 24 + b * 2 ^ 16 + c * 2 ^ 8 + d.
Proof.
  intros Ha Hb Hc Hd. rewrite quad_value_bits.
  assert (Ea : a = Z.land a (Z.ones 8)) by (rewrite Z.land_ones, Z.mod_small; lia).
  assert (Eb : b = Z.land b (Z.ones 8)) by (rewrite Z.land_ones, Z.mod_small; lia).
  assert (Ec : c = Z.land c (Z.ones 8)) by (rewrite Z.land_ones, Z.mod_small; lia).
  assert (Ed : d = Z.land d (Z.ones 8)) by (rewrite Z.land_ones, Z.mod_small; lia).
  assert (D1 : Z.land (Z.shiftl a 24) (Z.shiftl b 16) = 0)
    by (rewrite Ea, Eb; Z.bitblast).
  assert (D2 : Z.land (Z.lor (Z.shiftl a 24) (Z.shiftl b 16)) (Z.shiftl c 8) = 0)
    by (rewrite Ea, Eb, Ec; Z.bitblast).
  assert (D3 : Z.land (Z.lor (Z.lor (Z.shiftl a 24) (Z.shiftl b 16)) (Z.shiftl c 8)) d = 0)
    by (rewrite Ea, Eb, Ec, Ed; Z.bitblast).
  rewrite (lor_disjoint _ _ D3), (lor_disjoint _ _ D2), (lor_disjoint _ _ D1).
  rewrite !Z.shiftl_mul_pow2 by lia.
  rewrite Z.land_ones by lia. apply Z.mod_small. lia.
Qed.

(** The four bytes of a 32-bit value, put together again. *)
Lemma quad_value_bytes (v : Z) :
  0 <= v < 2 ^ 32 ->
  quad_value (Z.land (Z.shiftr v 24) 0xFF) (Z.land (Z.shiftr v 16) 0xFF)
             (Z.land (Z.shiftr v 8) 0xFF) (Z.land v 0xFF) = v.
Proof.
  intros Hv. rewrite quad_value_bits.
  change 0xFF with (Z.ones 8).
  transitivity (Z.land v (Z.ones 32)); [Z.bitblast|].
  rewrite Z.land_ones by lia. apply Z.mod_small. exact Hv.
Qed.

Lemma byte_range (x : Z) : 0 <= Z.land x 0xFF <= 255.
Proof.
  change (Z.land x 0xFF) with (Z.land x (Z.ones 8)). rewrite Z.land_ones by lia.
  pose proof (Z.mod_pos_bound x (2 ^ 8) ltac:(lia)). lia.
Qed.

Lemma scan_int_decimal (n : Z) (rest : string) :
  Int.in_int n = true -> stops_number rest ->
  scan_int (Text.decimal n ++ rest) = Some (n, rest).
Proof.
  intros Hn Hrest. unfold scan_int.
  rewrite TextFacts.scan_decimal_decimal by exact Hrest.
  rewrite TextFacts.to_int_small by exact Hn. reflexivity.
Qed.

Lemma sscanf_quad_text (a b c d : Z) (suffix : string) :
  Int.in_int a = true -> Int.in_int b = true -> Int.in_int c = true -> Int.in_int d = true ->
  stops_number suffix ->
  sscanf_dotted_quad (quad_text a b c d suffix) = [a; b; c; d].
Proof.
  intros Ha Hb Hc Hd Hs. unfold sscanf_dotted_quad, quad_text.
  cbn [append].
  rewrite (scan_int_decimal a) by (try exact Ha; reflexivity). cbn [expect_dot].
  rewrite (scan_int_decimal b) by (try exact Hb; reflexivity). cbn [expect_dot].
  rewrite (scan_int_decimal c) by (try exact Hc; reflexivity). cbn [expect_dot].
  rewrite (scan_int_decimal d) by (try exact Hd; exact Hs).
  reflexivity.
Qed.

Lemma quad_text_plain (a b c d : Z) : all_chars plain (quad_text a b c d "") = true.
Proof.
  unfold quad_text.
  rewrite !TextFacts.all_chars_app, !TextFacts.plain_decimal. reflexivity.
Qed.

Lemma quad_text_suffix (a b c d : Z) (suffix : string) :
  quad_text a b c d suffix = (quad_text a b c d "" ++ suffix)%string.
Proof.
  unfold quad_text. rewrite !TextFacts.append_assoc. reflexivity.
Qed.

Lemma ipToUint_quad_text (a b c d : Z) :
  Int.in_int a = true -> Int.in_int b = true -> Int.in_int c = true -> Int.in_int d = true ->
  ipToUint (quad_text a b c d "") = Ok (quad_value a b c d).
Proof.
  intros Ha Hb Hc Hd. unfold ipToUint.
  rewrite TextFacts.c_str_plain by apply quad_text_plain.
  rewrite sscanf_quad_text by (assumption || exact I). reflexivity.
Qed.

Lemma stoi_decimal (n : Z) : Int.in_int n = true -> stoi (Text.decimal n) = Ok n.
Proof.
  intros Hn. unfold stoi.
  rewrite TextFacts.c_str_plain by apply TextFacts.plain_decimal.
  rewrite <- (TextFacts.append_nil_r (Text.decimal n)).
  rewrite TextFacts.scan_decimal_decimal by exact I. rewrite Hn. reflexivity.
Qed.

Lemma stoi_decimal_out_of_range (n : Z) :
  Int.in_int n = false -> stoi (Text.decimal n) = Throw stoi_out_of_range.
Proof.
  intros Hn. unfold stoi.
  rewrite TextFacts.c_str_plain by apply TextFacts.plain_decimal.
  rewrite <- (TextFacts.append_nil_r (Text.decimal n)).
  rewrite TextFacts.scan_decimal_decimal by exact I. rewrite Hn. reflexivity.
Qed.

Lemma drop_past_char (s t : string) (c : ascii) :
  Text.drop (S (String.length s)) (s ++ String c t) = t.
Proof. induction s as [|x s IH]; [reflexivity | exact IH]. Qed.

(** The constructor on [a.b.c.d/n]: how it splits the text. *)
Lemma make_quad_slash (order : site -> eval_order) (a b c d n : Z) :
  IPAddress.make order (quad_text a b c d ("/" ++ Text.decimal n)) =
  (prefix <- stoi (Text.decimal n) ;;
   ' (v, m) <- both (order site_addr_and_mask)
                    (ipToUint (quad_text a b c d "")) (maskFromPrefix prefix) ;;
   ret (IPAddress.mk (Z.land v m) prefix))%result.
Proof.
  unfold IPAddress.make.
  rewrite (quad_text_suffix a b c d ("/" ++ Text.decimal n)).
  change ("/" ++ Text.decimal n)%string with (String "/"%char (Text.decimal n)).
  rewrite TextFacts.find_slash_plain by apply quad_text_plain.
  unfold Text.substr.
  rewrite drop_past_char. change (Text.drop 0 ?x) with x.
  rewrite TextFacts.take_app. reflexivity.
Qed.

(** The constructor on [a.b.c.d], without a prefix. *)
Lemma make_quad_plain (order : site -> eval_order) (a b c d : Z) :
  IPAddress.make order (quad_text a b c d "") =
  (' (v, m) <- both (order site_addr_and_mask)
                    (ipToUint (quad_text a b c d "")) (maskFromPrefix 32) ;;
   ret (IPAddress.mk (Z.land v m) 32))%result.
Proof.
  unfold IPAddress.make.
  rewrite TextFacts.find_slash_none by apply quad_text_plain.
  unfold Text.substr. change (Text.drop 0 ?x) with x. reflexivity.
Qed.

Lemma both_ok_ok {A B : Type} (o : eval_order) (a : A) (b : B) :
  both o (Ok a) (Ok b) = Ok (a, b).
Proof. destruct o; reflexivity. Qed.

Lemma both_ok_throw {A B : Type} (o : eval_order) (a : A) (e : exn) :
  both o (Ok a) (@Throw B e) = Throw e.
Proof. destruct o; reflexivity. Qed.

Lemma both_throw_ok {A B : Type} (o : eval_order) (e : exn) (b : B) :
  both o (@Throw A e) (Ok b) = Throw e.
Proof. destruct o; reflexivity. Qed.

Lemma in_int_small (n : Z) : -2 ^ 31 <= n < 2 ^ 31 -> Int.in_int n = true.
Proof.
  intros H. unfold Int.in_int, Int.INT_MIN, Int.INT_MAX.
  apply andb_true_iff; split; apply Z.leb_le; lia.
Qed.

(** A well-formed text with a prefix is accepted, and the address kept is
    the dotted quad cut to the prefix. *)
Lemma make_quad_slash_ok (order : site -> eval_order) (a b c d n : Z) :
  Int.in_int a = true -> Int.in_int b = true -> Int.in_int c = true -> Int.in_int d = true ->
  0 <= n <= 32 ->
  IPAddress.make order (quad_text a b c d ("/" ++ Text.decimal n)) =
  Ok (IPAddress.mk (Z.land (quad_value a b c d) (2 ^ 32 - 2 ^ (32 - n))) n).
Proof.
  intros Ha Hb Hc Hd Hn. rewrite make_quad_slash.
  rewrite stoi_decimal by (apply in_int_small; lia). cbn [bind].
  rewrite ipToUint_quad_text, maskFromPrefix_value, both_ok_ok by assumption.
  reflexivity.
Qed.

Lemma make_quad_plain_ok (order : site -> eval_order) (a b c d : Z) :
  Int.in_int a = true -> Int.in_int b = true -> Int.in_int c = true -> Int.in_int d = true ->
  IPAddress.make order (quad_text a b c d "") = Ok (IPAddress.mk (quad_value a b c d) 32).
Proof.
  intros Ha Hb Hc Hd. rewrite make_quad_plain.
  rewrite ipToUint_quad_text, maskFromPrefix_value, both_ok_ok by (assumption || lia).
  cbn [bind ret].
  assert (E : Z.land (quad_value a b c d) (2 ^ 32 - 2 ^ (32 - 32)) = quad_value a b c d).
  { change (2 ^ 32 - 2 ^ (32 - 32)) with (Z.ones 32).
    rewrite Z.land_ones by lia. apply Z.mod_small.
    unfold quad_value. apply to_uint32_range. }
  rewrite E. reflexivity.
Qed.

(** An [int] prefix outside 0..32 behind a dotted quad that scans is
    refused by [maskFromPrefix], whatever the order of evaluation. *)
Lemma make_quad_slash_bad_prefix (order : site -> eval_order) (a b c d n : Z) :
  Int.in_int a = true -> Int.in_int b = true -> Int.in_int c = true -> Int.in_int d = true ->
  Int.in_int n = true -> n < 0 \/ 32 < n ->
  IPAddress.make order (quad_text a b c d ("/" ++ Text.decimal n)) = Throw bad_prefix.
Proof.
  intros Ha Hb Hc Hd Hi Hn. rewrite make_quad_slash.
  rewrite stoi_decimal by exact Hi. cbn [bind].
  rewrite ipToUint_quad_text, maskFromPrefix_throws, both_ok_throw by assumption.
  reflexivity.
Qed.

Lemma toString_quad_text (ip : IPAddress.t) :
  IPAddress.toString ip =
  quad_text (Z.land (Z.shiftr (IPAddress.addr ip) 24) 0xFF)
            (Z.land (Z.shiftr (IPAddress.addr ip) 16) 0xFF)
            (Z.land (Z.shiftr (IPAddress.addr ip) 8) 0xFF)
            (Z.land (IPAddress.addr ip) 0xFF)
            ("/" ++ Text.decimal (IPAddress.prefix ip)).
Proof. reflexivity. Qed.

Lemma byte_in_int (x : Z) : Int.in_int (Z.land x 0xFF) = true.
Proof. apply in_int_small. pose proof (byte_range x). lia. Qed.

(** Reading back what [toString] printed gives the address again. *)
Lemma make_toString (order : site -> eval_order) (ip : IPAddress.t) :
  IPAddress.valid ip -> IPAddress.make order (IPAddress.toString ip) = Ok ip.
Proof.
  intros (Hp & Ha & mask & Hmask & Hland).
  rewrite toString_quad_text.
  rewrite make_quad_slash_ok by (apply byte_in_int || exact Hp).
  rewrite quad_value_bytes by exact Ha.
  destruct (maskFromPrefix_ok_inv _ _ Hmask) as [_ Hm]. 
  rewrite <- Hm, Hland. destruct ip; reflexivity.
Qed.
(* ================================================================== *)
(** * Sorting by metric *)

Lemma ascending_le (a b : Route.t) : ascending a b <-> Route.metric a <= Route.metric b.
Proof.
  unfold ascending, RoutingTable.by_metric, Route.getMetric. rewrite Z.ltb_ge. reflexivity.
Qed.

Lemma insert_by_metric_perm (r : Route.t) (l : list Route.t) :
  Permutation (r :: l) (insert_by_metric r l).
Proof.
  induction l as [|x l IH]; simpl; [apply Permutation_refl|].
  destruct (RoutingTable.by_metric x r); [|apply Permutation_refl].
  eapply perm_trans; [apply perm_swap|]. apply perm_skip. exact IH.
Qed.

Lemma insert_by_metric_sorted (r : Route.t) (l : list Route.t) :
  StronglySorted ascending l -> StronglySorted ascending (insert_by_metric r l).
Proof.
  induction 1 as [|x l Hs IH Hall]; simpl.
  - constructor; constructor.
  - destruct (RoutingTable.by_metric x r) eqn:E.
    + constructor; [exact IH|].
      apply (Permutation_Forall (insert_by_metric_perm r l)).
      constructor; [|exact Hall].
      apply ascending_le. unfold RoutingTable.by_metric, Route.getMetric in E.
      apply Z.ltb_lt in E. lia.
    + constructor; [constructor; assumption|].
      assert (Hrx : ascending r x) by exact E.
      constructor; [exact Hrx|].
      apply Forall_forall. intros y Hy. rewrite Forall_forall in Hall.
      specialize (Hall y Hy). apply ascending_le in Hall, Hrx. apply ascending_le. lia.
Qed.

Lemma stable_sort_result (l : list Route.t) :
  RoutingTable.sort_result RoutingTable.by_metric l (stable_sort_by_metric l).
Proof.
  split.
  - induction l as [|r l IH]; simpl; [constructor|].
    eapply perm_trans; [apply perm_skip; exact IH | apply insert_by_metric_perm].
  - induction l as [|r l IH]; simpl; [constructor|].
    apply insert_by_metric_sorted. exact IH.
Qed.

Lemma metric_injective (l : list Route.t) (a b : Route.t) :
  NoDup (map Route.metric l) -> In a l -> In b l -> Route.metric a = Route.metric b -> a = b.
Proof.
  induction l as [|x l IH]; simpl; intros Hnd Ha Hb E; [contradiction|].
  inversion Hnd as [|? ? Hnotin Hnd']; subst.
  destruct Ha as [->|Ha], Hb as [->|Hb]; auto.
  - exfalso. apply Hnotin. rewrite E. apply in_map. exact Hb.
  - exfalso. apply Hnotin. rewrite <- E. apply in_map. exact Ha.
Qed.

(** With pairwise different metrics there is one sorted rearrangement. *)
Lemma sorted_unique (s1 : list Route.t) :
  forall s2, Permutation s1 s2 -> NoDup (map Route.metric s1) ->
             StronglySorted ascending s1 -> StronglySorted ascending s2 -> s1 = s2.
Proof.
  induction s1 as [|a s1 IH]; intros s2 Hp Hnd H1 H2.
  - apply Permutation_nil in Hp. congruence.
  - destruct s2 as [|b s2]; [apply Permutation_sym, Permutation_nil in Hp; discriminate|].
    assert (Hab : a = b).
    { apply (metric_injective (a :: s1)); auto.
      - left; reflexivity.
      - apply (Permutation_in b (Permutation_sym Hp)). left; reflexivity.
      - apply StronglySorted_inv in H1, H2.
        destruct H1 as [_ F1], H2 as [_ F2]. rewrite Forall_forall in F1, F2.
        assert (Ha : In a (b :: s2)) by (apply (Permutation_in a Hp); left; reflexivity).
        assert (Hb : In b (a :: s1))
          by (apply (Permutation_in b (Permutation_sym Hp)); left; reflexivity).
        destruct Ha as [Ha|Ha]; [congruence|].
        destruct Hb as [Hb|Hb]; [congruence|].
        specialize (F1 b Hb). specialize (F2 a Ha).
        apply ascending_le in F1, F2. lia. }
    subst b. f_equal. apply IH.
    + apply Permutation_cons_inv in Hp. exact Hp.
    + simpl in Hnd. inversion Hnd; assumption.
    + apply StronglySorted_inv in H1. tauto.
    + apply StronglySorted_inv in H2. tauto.
Qed.

Lemma sort_result_unique (routes sorted : list Route.t) :
  NoDup (map Route.metric routes) ->
  RoutingTable.sort_result RoutingTable.by_metric routes sorted ->
  sorted = stable_sort_by_metric routes.
Proof.
  intros Hnd [Hp Hs]. destruct (stable_sort_result routes) as [Hp' Hs'].
  apply sorted_unique; auto.
  - eapply perm_trans; [apply Permutation_sym; exact Hp | exact Hp'].
  - apply (Permutation_NoDup (Permutation_map Route.metric Hp)). exact Hnd.
Qed.
Lemma remove_one_perm (x : nat) (l r : list nat) :
  remove_one x l = Some r -> Permutation l (x :: r).
Proof.
  revert r. induction l as [|y l IH]; simpl; intros r H; [discriminate|].
  destruct (Nat.eqb_spec x y) as [->|N].
  - inversion H; subst. apply Permutation_refl.
  - destruct (remove_one x l) as [r'|]; [|discriminate].
    inversion H; subst.
    eapply perm_trans; [apply perm_skip, IH; reflexivity | apply perm_swap].
Qed.

Lemma is_rearrangement_perm (l1 : list nat) :
  forall l2, is_rearrangement l1 l2 = true -> Permutation l1 l2.
Proof.
  induction l1 as [|x l1 IH]; simpl; intros l2 H.
  - destruct l2; [constructor | discriminate].
  - destruct (remove_one x l2) as [l2'|] eqn:E; [|discriminate].
    apply Permutation_sym. eapply perm_trans; [apply remove_one_perm; exact E|].
    apply perm_skip, Permutation_sym, IH. exact H.
Qed.

Lemma same_metric_sorted (l : list nat) :
  StronglySorted ascending (map same_metric_route l).
Proof.
  induction l as [|i l IH]; simpl; constructor; [exact IH|].
  apply Forall_forall. intros r Hr. apply in_map_iff in Hr.
  destruct Hr as (j & <- & _). reflexivity.
Qed.

Lemma shuffled17_sort_result :
  RoutingTable.sort_result RoutingTable.by_metric table17 shuffled17.
Proof.
  split.
  - apply Permutation_map. apply is_rearrangement_perm. reflexivity.
  - apply same_metric_sorted.
Qed.

(** The seventeen commands that build [table17]. *)
Lemma table17_added :
  RouterCLI.table
    (fold_left (fun st i =>
                  fst (RouterCLI.handleAdd (fun _ => left_first)
                         (" 10.0.0.0/8 192.168.1." ++ Text.decimal (Z.of_nat i) ++ " 10") st))
               (seq 0 17) (RouterCLI.mk [] "" ""))
  = table17.
Proof. vm_compute. reflexivity. Qed.

(** Stability, as the specification words it, fails: on [table17], whose entries
    all have metric 10, [print] may write the entries in the order
    [shuffled17], which is not the order of insertion (the order a stable
    sort gives). *)
Lemma print_not_stable :
  RoutingTable.print table17 (print_text shuffled17) /\
  print_text shuffled17 <> print_text (stable_sort_by_metric table17) /\
  stable_sort_by_metric table17 = table17 /\
  Forall (fun r => Route.getMetric r = 10) table17.
Proof.
  split; [|split; [|split]].
  - apply RoutingTable.print_sorted; [discriminate | apply shuffled17_sort_result].
  - vm_compute. intros H. discriminate H.
  - reflexivity.
  - repeat constructor.
Qed.
(* ================================================================== *)
(** * Facts about the command handlers *)

Lemma pair_inv {A B : Type} (a a' : A) (b b' : B) : (a, b) = (a', b') -> a = a' /\ b = b'.
Proof. intros H. split; [exact (f_equal fst H) | exact (f_equal snd H)]. Qed.

(** Takes an equation between a handler's result and a pair apart. *)
Ltac split_result H :=
  apply pair_inv in H;
  let Hst := fresh "Hst" in
  let Hres := fresh "Hres" in
  destruct H as [Hst Hres]; try discriminate Hres;
  try (injection Hres as Hres); try subst.

Lemma handleAdd_ok (order : site -> eval_order) (ss : string) (st : RouterCLI.t)
      (net gw : string) (m : Z) (n g : IPAddress.t) :
  RouterCLI.read_add_args ss = Some (net, gw, m) ->
  IPAddress.make order net = Ok n ->
  IPAddress.make order gw = Ok g ->
  RouterCLI.handleAdd order ss st =
  (RouterCLI.mk (RouterCLI.table st ++ [Route.mk n g m])
                (RouterCLI.log st ++ "ADD " ++ net ++ " przez " ++ gw ++ " metryka " ++
                 Text.decimal m ++ Text.nl)
                (RouterCLI.cout st ++ "Dodano trasę." ++ Text.nl),
   Ok tt).
Proof.
  intros Hargs Hn Hg. unfold RouterCLI.handleAdd. rewrite Hargs, Hn, Hg, both_ok_ok.
  reflexivity.
Qed.

Lemma handleAdd_throw (order : site -> eval_order) (ss : string) (st st' : RouterCLI.t)
      (e : exn) :
  RouterCLI.handleAdd order ss st = (st', Throw e) ->
  st' = st /\
  exists net gw m, RouterCLI.read_add_args ss = Some (net, gw, m) /\
                   (IPAddress.make order net = Throw e \/ IPAddress.make order gw = Throw e).
Proof.
  unfold RouterCLI.handleAdd.
  destruct (RouterCLI.read_add_args ss) as [[[net gw] m]|]; [|intros H; split_result H].
  destruct (both (order site_route_args) (IPAddress.make order net) (IPAddress.make order gw))
    as [[n g]|e'] eqn:E; intros H; split_result H.
  split; [reflexivity|]. exists net, gw, m. split; [reflexivity|].
  apply both_throw in E. exact E.
Qed.

Lemma handleDelete_ok (order : site -> eval_order) (ss : string) (st : RouterCLI.t)
      (net rest : string) (n : IPAddress.t) :
  RouterCLI.extract_string ss = Some (net, rest) ->
  IPAddress.make order net = Ok n ->
  RouterCLI.handleDelete order ss st =
  (RouterCLI.mk (fst (RoutingTable.removeRoute (RouterCLI.table st) n))
                (RouterCLI.log st ++ "DEL " ++ net ++ Text.nl)
                (RouterCLI.cout st ++ snd (RoutingTable.removeRoute (RouterCLI.table st) n)),
   Ok tt).
Proof.
  intros Hargs Hn. unfold RouterCLI.handleDelete. rewrite Hargs, Hn.
  destruct (RoutingTable.removeRoute (RouterCLI.table st) n) as [routes said]. reflexivity.
Qed.

Lemma handleDelete_throw (order : site -> eval_order) (ss : string) (st st' : RouterCLI.t)
      (e : exn) :
  RouterCLI.handleDelete order ss st = (st', Throw e) ->
  st' = st /\
  exists net rest, RouterCLI.extract_string ss = Some (net, rest) /\
                   IPAddress.make order net = Throw e.
Proof.
  unfold RouterCLI.handleDelete.
  destruct (RouterCLI.extract_string ss) as [[net rest]|]; [|intros H; split_result H].
  destruct (IPAddress.make order net) as [n|e'] eqn:E.
  - destruct (RoutingTable.removeRoute (RouterCLI.table st) n). intros H; split_result H.
  - intros H; split_result H. split; [reflexivity|]. exists net, rest. auto.
Qed.


Lemma handleSend_throw (order : site -> eval_order) (ss : string) (st st' : RouterCLI.t)
      (e : exn) :
  RouterCLI.handleSend order ss st = (st', Throw e) ->
  RouterCLI.table st' = RouterCLI.table st /\ RouterCLI.log st' = RouterCLI.log st.
Proof.
  unfold RouterCLI.handleSend.
  destruct (RouterCLI.read_send_args ss) as [[[src dst] proto]|]; [|intros H; split_result H].
  destruct (both (order site_packet_args) (IPAddress.make order src) (IPAddress.make order dst))
    as [[s d]|e']; [|intros H; split_result H; auto].
  cbn [RouterCLI.write_cout RouterCLI.table Packet.getDestination Packet.destination].
  destruct (RoutingTable.findRoute (RouterCLI.table st) d) as [[r|]|e'];
    intros H; split_result H; auto.
Qed.

Lemma handle_throw (order : site -> eval_order) (c : command) (ss : string)
      (st st' : RouterCLI.t) (e : exn) :
  handle order c ss st = (st', Throw e) ->
  RouterCLI.table st' = RouterCLI.table st /\ RouterCLI.log st' = RouterCLI.log st.
Proof.
  destruct c; simpl; intros H.
  - apply handleAdd_throw in H. destruct H as [-> _]. auto.
  - apply handleDelete_throw in H. destruct H as [-> _]. auto.
  - apply handleSend_throw in H. exact H.
Qed.

(* ------------------------------------------------------------------ *)
(** ** The table holds valid routes *)

Lemma extract_int_range (ss rest : string) (m : Z) :
  RouterCLI.extract_int ss = Some (m, rest) -> Int.in_int m = true.
Proof.
  unfold RouterCLI.extract_int.
  destruct (Text.scan_decimal ss) as [[v r]|]; [|discriminate].
  destruct (Int.in_int v) eqn:E; [|discriminate]. intros H; injection H as <- <-. exact E.
Qed.

Lemma read_add_args_range (ss net gw : string) (m : Z) :
  RouterCLI.read_add_args ss = Some (net, gw, m) -> Int.in_int m = true.
Proof.
  unfold RouterCLI.read_add_args.
  destruct (RouterCLI.extract_string ss) as [[n ss1]|]; [|discriminate].
  destruct (RouterCLI.extract_string ss1) as [[g ss2]|]; [|discriminate].
  destruct (RouterCLI.extract_int ss2) as [[v r]|] eqn:E; [|discriminate].
  intros H; injection H as <- <- <-. apply (extract_int_range _ _ _ E).
Qed.

Lemma handleAdd_valid (order : site -> eval_order) (ss : string) (st st' : RouterCLI.t)
      (r : result unit) :
  RoutingTable.valid (RouterCLI.table st) ->
  RouterCLI.handleAdd order ss st = (st', r) ->
  RoutingTable.valid (RouterCLI.table st').
Proof.
  intros Hv. unfold RouterCLI.handleAdd.
  destruct (RouterCLI.read_add_args ss) as [[[net gw] m]|] eqn:Hargs;
    [|intros H; split_result H; exact Hv].
  destruct (both (order site_route_args) (IPAddress.make order net) (IPAddress.make order gw))
    as [[n g]|e] eqn:E; intros H; split_result H; [|exact Hv].
  apply both_ok in E. destruct E as [Hn Hg].
  cbn [RouterCLI.table RouterCLI.write_log RouterCLI.write_cout RouterCLI.set_table].
  unfold RoutingTable.valid, RoutingTable.addRoute. apply Forall_app. split; [exact Hv|].
  constructor; [|constructor].
  repeat split; cbn [Route.network Route.gateway Route.metric];
    try (eapply make_valid; eassumption).
  eapply read_add_args_range; eassumption.
Qed.

Lemma removeRoute_valid (routes : RoutingTable.t) (n : IPAddress.t) :
  RoutingTable.valid routes -> RoutingTable.valid (fst (RoutingTable.removeRoute routes n)).
Proof.
  intros Hv. rewrite removeRoute_filter. cbn [fst].
  unfold RoutingTable.valid in *. rewrite Forall_forall in *.
  intros r Hr. apply filter_In in Hr. apply Hv. tauto.
Qed.

Lemma handleDelete_valid (order : site -> eval_order) (ss : string) (st st' : RouterCLI.t)
      (r : result unit) :
  RoutingTable.valid (RouterCLI.table st) ->
  RouterCLI.handleDelete order ss st = (st', r) ->
  RoutingTable.valid (RouterCLI.table st').
Proof.
  intros Hv. unfold RouterCLI.handleDelete.
  destruct (RouterCLI.extract_string ss) as [[net rest]|];
    [|intros H; split_result H; exact Hv].
  destruct (IPAddress.make order net) as [n|e]; [|intros H; split_result H; exact Hv].
  pose proof (removeRoute_valid (RouterCLI.table st) n Hv) as Hr.
  destruct (RoutingTable.removeRoute (RouterCLI.table st) n) as [routes said].
  intros H; split_result H. exact Hr.
Qed.

Lemma handleSend_table (order : site -> eval_order) (ss : string) (st st' : RouterCLI.t)
      (r : result unit) :
  RouterCLI.handleSend order ss st = (st', r) ->
  RouterCLI.table st' = RouterCLI.table st.
Proof.
  unfold RouterCLI.handleSend.
  destruct (RouterCLI.read_send_args ss) as [[[src dst] proto]|];
    [|intros H; split_result H; reflexivity].
  destruct (both (order site_packet_args) (IPAddress.make order src) (IPAddress.make order dst))
    as [[s d]|e]; [|intros H; split_result H; reflexivity].
  cbn [RouterCLI.write_cout RouterCLI.table Packet.getDestination Packet.destination].
  destruct (RoutingTable.findRoute (RouterCLI.table st) d) as [[x|]|e];
    intros H; split_result H; reflexivity.
Qed.

Lemma handle_valid (order : site -> eval_order) (c : command) (ss : string)
      (st st' : RouterCLI.t) (r : result unit) :
  RoutingTable.valid (RouterCLI.table st) ->
  handle order c ss st = (st', r) ->
  RoutingTable.valid (RouterCLI.table st').
Proof.
  intros Hv. destruct c; simpl; intros H.
  - eapply handleAdd_valid; eassumption.
  - eapply handleDelete_valid; eassumption.
  - rewrite (handleSend_table _ _ _ _ _ H). exact Hv.
Qed.

Lemma catch_table (x : RouterCLI.t * result unit) :
  RouterCLI.table (RouterCLI.catch x) = RouterCLI.table (fst x).
Proof. destruct x as [st [u|e]]; reflexivity. Qed.

Lemma catch_log (x : RouterCLI.t * result unit) :
  RouterCLI.log (RouterCLI.catch x) = RouterCLI.log (fst x).
Proof. destruct x as [st [u|e]]; reflexivity. Qed.

Lemma run_line_valid (order : site -> eval_order) (st st' : RouterCLI.t) (cmd : string)
      (go : bool) :
  RouterCLI.run_line order st cmd st' go ->
  RoutingTable.valid (RouterCLI.table st) ->
  RoutingTable.valid (RouterCLI.table st').
Proof.
  intros H Hv. destruct H; try exact Hv; rewrite catch_table.
  - apply (handle_valid order cmd_add rest st _ (snd (RouterCLI.handleAdd order rest st)) Hv).
    simpl. destruct (RouterCLI.handleAdd order rest st); reflexivity.
  - apply (handle_valid order cmd_del rest st _ (snd (RouterCLI.handleDelete order rest st)) Hv).
    simpl. destruct (RouterCLI.handleDelete order rest st); reflexivity.
  - apply (handle_valid order cmd_send rest st _ (snd (RouterCLI.handleSend order rest st)) Hv).
    simpl. destruct (RouterCLI.handleSend order rest st); reflexivity.
Qed.

Lemma run_loop_valid (order : site -> eval_order) (st st' : RouterCLI.t) (lines : list string) :
  RouterCLI.run_loop order st lines st' ->
  RoutingTable.valid (RouterCLI.table st) ->
  RoutingTable.valid (RouterCLI.table st').
Proof.
  induction 1 as [st|st cmd more st' Hl|st cmd more st' st'' Hl Hrest IH]; intros Hv.
  - exact Hv.
  - apply (run_line_valid _ _ _ _ _ Hl). exact Hv.
  - apply IH. apply (run_line_valid _ _ _ _ _ Hl). exact Hv.
Qed.

(** Whatever is typed, the table of a router that starts empty only ever
    holds routes whose addresses are cut to their prefixes. *)
Lemma run_valid (order : site -> eval_order) (lines : list string) (st' : RouterCLI.t) :
  RouterCLI.run order (RouterCLI.mk [] "" "") lines st' ->
  RoutingTable.valid (RouterCLI.table st').
Proof.
  intros H. apply (run_loop_valid _ _ _ _ H). constructor.
Qed.
(* ================================================================== *)
(** * The properties of the specification *)

(** Addresses written out in the examples, whatever the order of
    evaluation. *)
Ltac make_literal :=
  apply (make_order_irrelevant (fun _ => left_first)); vm_compute; reflexivity.

(** Validity of a table written out. *)
Ltac ip_valid_literal :=
  unfold IPAddress.valid; cbn [IPAddress.prefix IPAddress.addr];
  split; [lia|]; split; [lia|]; eexists;
  split; [vm_compute; reflexivity | vm_compute; reflexivity].

Ltac valid_literal :=
  repeat (apply Forall_cons;
          [ unfold Route.valid; cbn [Route.network Route.gateway Route.metric];
            split; [ip_valid_literal|]; split; [ip_valid_literal | reflexivity]
          | ]);
  apply Forall_nil.

Lemma make_10_8 (order : site -> eval_order) :
  IPAddress.make order "10.0.0.0/8" = Ok (IPAddress.mk 167772160 8).
Proof. make_literal. Qed.

Lemma make_10_1_16 (order : site -> eval_order) :
  IPAddress.make order "10.1.0.0/16" = Ok (IPAddress.mk 167837696 16).
Proof. make_literal. Qed.

Lemma make_10_0_0_24 (order : site -> eval_order) :
  IPAddress.make order "10.0.0.0/24" = Ok (IPAddress.mk 167772160 24).
Proof. make_literal. Qed.

Lemma make_10_0_0_25 (order : site -> eval_order) :
  IPAddress.make order "10.0.0.0/25" = Ok (IPAddress.mk 167772160 25).
Proof. make_literal. Qed.

Lemma make_10_1_2_3 (order : site -> eval_order) :
  IPAddress.make order "10.1.2.3" = Ok (IPAddress.mk 167838211 32).
Proof. make_literal. Qed.

Lemma make_10_2_0_0 (order : site -> eval_order) :
  IPAddress.make order "10.2.0.0" = Ok (IPAddress.mk 167903232 32).
Proof. make_literal. Qed.

Lemma make_192_0_0_0 (order : site -> eval_order) :
  IPAddress.make order "192.0.0.0" = Ok (IPAddress.mk 3221225472 32).
Proof. make_literal. Qed.


(** C1. On a table of valid routes [findRoute] returns an entry whose
    network contains the destination and whose prefix is the longest among
    the entries that contain it, and returns nothing exactly when no entry
    contains it.  With 10.0.0.0/8 -> G1 and 10.1.0.0/16 -> G2, 10.1.2.3 finds
    G2, 10.2.0.0 finds G1 and 192.0.0.0 finds nothing. *)
Theorem findRoute_longest_prefix_match :
  (forall (routes : RoutingTable.t) (dest : IPAddress.t),
      RoutingTable.valid routes ->
      exists res,
        RoutingTable.findRoute routes dest = Ok res /\
        (forall E, res = Some E ->
           In E routes /\ Route.matches E dest = Ok true /\
           forall r, In r routes -> Route.matches r dest = Ok true ->
                     IPAddress.getPrefix (Route.getNetwork r)
                     <= IPAddress.getPrefix (Route.getNetwork E)) /\
        (res = None <-> forall r, In r routes -> Route.matches r dest = Ok false)) /\
  (forall (order : site -> eval_order) (n8 n16 d1 d2 d3 g1 g2 : IPAddress.t) (m1 m2 : Z),
      IPAddress.make order "10.0.0.0/8" = Ok n8 ->
      IPAddress.make order "10.1.0.0/16" = Ok n16 ->
      IPAddress.make order "10.1.2.3" = Ok d1 ->
      IPAddress.make order "10.2.0.0" = Ok d2 ->
      IPAddress.make order "192.0.0.0" = Ok d3 ->
      let table := [Route.mk n8 g1 m1; Route.mk n16 g2 m2] in
      RoutingTable.findRoute table d1 = Ok (Some (Route.mk n16 g2 m2)) /\
      RoutingTable.findRoute table d2 = Ok (Some (Route.mk n8 g1 m1)) /\
      RoutingTable.findRoute table d3 = Ok None).
Proof.
  split.
  - intros routes dest Hv.
    destruct (findRoute_scanned routes dest Hv) as (res & Hres & Hs).
    exists res. split; [exact Hres|]. split.
    + intros E ->. destruct Hs as (before & after & Hsplit & HE & Hlt & Hle).
      subst routes. split; [apply in_elt|]. split; [exact HE|].
      intros r Hr Hm. unfold IPAddress.getPrefix, Route.getNetwork.
      apply in_app_or in Hr. destruct Hr as [Hr|[Hr|Hr]].
      * specialize (Hlt r Hr Hm). lia.
      * subst r. lia.
      * apply Hle; assumption.
    + split.
      * intros ->. exact Hs.
      * intros Hnone. destruct res as [E|]; [|reflexivity].
        destruct Hs as (before & after & Hsplit & HE & _).
        rewrite (Hnone E) in HE by (subst routes; apply in_elt). discriminate.
  - intros order n8 n16 d1 d2 d3 g1 g2 m1 m2 H8 H16 H1 H2 H3.
    rewrite make_10_8 in H8. rewrite make_10_1_16 in H16. rewrite make_10_1_2_3 in H1.
    rewrite make_10_2_0_0 in H2. rewrite make_192_0_0_0 in H3.
    assert (E8 : n8 = IPAddress.mk 167772160 8) by congruence.
    assert (E16 : n16 = IPAddress.mk 167837696 16) by congruence.
    assert (E1 : d1 = IPAddress.mk 167838211 32) by congruence.
    assert (E2 : d2 = IPAddress.mk 167903232 32) by congruence.
    assert (E3 : d3 = IPAddress.mk 3221225472 32) by congruence.
    subst. repeat split.
Qed.

Lemma findRoute_longest_prefix_match_witness :
  let table := [Route.mk (IPAddress.mk 167772160 8) (IPAddress.mk 16843009 32) 5;
                Route.mk (IPAddress.mk 167837696 16) (IPAddress.mk 33686018 32) 1] in
  RoutingTable.valid table /\
  (exists res,
      RoutingTable.findRoute table (IPAddress.mk 167838211 32) = Ok res /\
      (forall E, res = Some E ->
         In E table /\ Route.matches E (IPAddress.mk 167838211 32) = Ok true /\
         forall r, In r table -> Route.matches r (IPAddress.mk 167838211 32) = Ok true ->
                   IPAddress.getPrefix (Route.getNetwork r)
                   <= IPAddress.getPrefix (Route.getNetwork E)) /\
      (res = None <->
       forall r, In r table -> Route.matches r (IPAddress.mk 167838211 32) = Ok false)) /\
  RoutingTable.findRoute table (IPAddress.mk 167838211 32)
  = Ok (Some (Route.mk (IPAddress.mk 167837696 16) (IPAddress.mk 33686018 32) 1)).
Proof.
  intros table.
  assert (Hv : RoutingTable.valid table) by (unfold table; valid_literal).
  split; [exact Hv|]. split.
  - apply (proj1 findRoute_longest_prefix_match table (IPAddress.mk 167838211 32) Hv).
  - assert (H8 : IPAddress.make (fun _ => left_first) "10.0.0.0/8"
                = Ok (IPAddress.mk 167772160 8)) by (vm_compute; reflexivity).
    assert (H16 : IPAddress.make (fun _ => left_first) "10.1.0.0/16"
                 = Ok (IPAddress.mk 167837696 16)) by (vm_compute; reflexivity).
    assert (H1 : IPAddress.make (fun _ => left_first) "10.1.2.3"
                = Ok (IPAddress.mk 167838211 32)) by (vm_compute; reflexivity).
    assert (H2 : IPAddress.make (fun _ => left_first) "10.2.0.0"
                = Ok (IPAddress.mk 167903232 32)) by (vm_compute; reflexivity).
    assert (H3 : IPAddress.make (fun _ => left_first) "192.0.0.0"
                = Ok (IPAddress.mk 3221225472 32)) by (vm_compute; reflexivity).
    exact (proj1 (proj2 findRoute_longest_prefix_match (fun _ => left_first)
                        _ _ _ _ _ (IPAddress.mk 16843009 32) (IPAddress.mk 33686018 32) 5 1
                        H8 H16 H1 H2 H3)).
Defined.



(** C3. [matches] answers whether the other address, cut by the network
    mask of the prefix of this one, equals the stored address of this one.
    The mask is [2^32 - 2^(32 - prefix)], the 32-bit number whose [prefix]
    highest bits are set and no others.  An address built by the
    constructor therefore matches itself; 10.0.0.0/8 matches itself and
    10.1.2.3 and does not match 192.0.0.0. *)
Theorem matches_masked_equality :
  (forall self other : IPAddress.t,
      0 <= IPAddress.prefix self <= 32 ->
      exists mask,
        maskFromPrefix (IPAddress.prefix self) = Ok mask /\
        mask = 2 ^ 32 - 2 ^ (32 - IPAddress.prefix self) /\
        (forall i, 0 <= i ->
                   Z.testbit mask i = (32 - IPAddress.prefix self <=? i) && (i <? 32)) /\
        IPAddress.matches self other
        = Ok (Z.land (IPAddress.addr other) mask =? IPAddress.addr self) /\
        (IPAddress.matches self other = Ok true <->
         Z.land (IPAddress.addr other) mask = IPAddress.addr self)) /\
  (forall (order : site -> eval_order) (cidr : string) (net : IPAddress.t),
      IPAddress.make order cidr = Ok net -> IPAddress.matches net net = Ok true) /\
  (forall order : site -> eval_order,
      exists net host far,
        IPAddress.make order "10.0.0.0/8" = Ok net /\
        IPAddress.make order "10.1.2.3" = Ok host /\
        IPAddress.make order "192.0.0.0" = Ok far /\
        IPAddress.matches net net = Ok true /\
        IPAddress.matches net host = Ok true /\
        IPAddress.matches net far = Ok false).
Proof.
  assert (Hrefl : forall order cidr net,
             IPAddress.make order cidr = Ok net -> IPAddress.matches net net = Ok true).
  { intros order cidr net H. apply make_valid in H.
    destruct H as (Hp & _ & mask & Hmask & Hland).
    unfold IPAddress.matches. rewrite Hmask. cbn [bind ret].
    rewrite Hland, Z.eqb_refl. reflexivity. }
  split; [|split].
  - intros self other Hp.
    pose proof (maskFromPrefix_value _ Hp) as Hmask.
    pose proof (matches_valid self other Hp) as Hm.
    pose proof (fun i (Hi : 0 <= i) => mask_testbit (IPAddress.prefix self) i Hp Hi) as Hbits.
    assert (Hiff : forall m x a : Z,
               @Ok bool (Z.land x m =? a) = Ok true <-> Z.land x m = a).
    { intros m x a. destruct (Z.eqb_spec (Z.land x m) a) as [E|N].
      - split; [intros _; exact E | reflexivity].
      - split; [intros H; discriminate H | intros E; contradiction]. }
    exists (2 ^ 32 - 2 ^ (32 - IPAddress.prefix self)).
    split; [exact Hmask|]. split; [reflexivity|].
    split; [exact Hbits|]. split; [exact Hm|]. rewrite Hm. apply Hiff.
  - exact Hrefl.
  - intros order. do 3 eexists.
    split; [apply make_10_8|]. split; [apply make_10_1_2_3|]. split; [apply make_192_0_0_0|].
    repeat split.
Qed.

Lemma matches_masked_equality_witness :
  let net := IPAddress.mk 167772160 8 in
  IPAddress.matches net (IPAddress.mk 167838211 32) = Ok true /\
  IPAddress.matches net (IPAddress.mk 3221225472 32) = Ok (false) /\
  IPAddress.matches net net = Ok true.
Proof.
  intros net.
  assert (Hp : 0 <= IPAddress.prefix net <= 32) by (cbn [IPAddress.prefix net]; lia).
  destruct matches_masked_equality as (Hmask & Hrefl & _).
  split; [|split].
  - destruct (Hmask net (IPAddress.mk 167838211 32) Hp) as (mask & _ & Hval & _ & _ & Hiff).
    apply Hiff. rewrite Hval. reflexivity.
  - destruct (Hmask net (IPAddress.mk 3221225472 32) Hp) as (mask & _ & Hval & _ & Heq & _).
    rewrite Heq, Hval. reflexivity.
  - apply (Hrefl (fun _ => left_first) "10.0.0.0/8"). vm_compute. reflexivity.
Defined.

(** C5. [removeRoute] deletes exactly the entries whose network has the
    address and the prefix of the argument, keeps all others as they are
    and in their order, tells whether an entry was removed, and leaves the
    table as it is when none matches; removing 10.0.0.0/24 leaves an entry
    for 10.0.0.0/25 in place. *)
Theorem removeRoute_exact_network :
  (forall (routes : RoutingTable.t) (network : IPAddress.t),
      fst (RoutingTable.removeRoute routes network)
      = filter (fun r => negb (IPAddress.eqb (Route.getNetwork r) network)) routes) /\
  (forall a b : IPAddress.t,
      IPAddress.eqb a b = true <->
      IPAddress.addr a = IPAddress.addr b /\ IPAddress.prefix a = IPAddress.prefix b) /\
  (forall (routes : RoutingTable.t) (network : IPAddress.t) (r : Route.t),
      In r (fst (RoutingTable.removeRoute routes network)) <->
      In r routes /\
      ~ (IPAddress.addr (Route.getNetwork r) = IPAddress.addr network /\
         IPAddress.prefix (Route.getNetwork r) = IPAddress.prefix network)) /\
  (forall (routes : RoutingTable.t) (network : IPAddress.t),
      snd (RoutingTable.removeRoute routes network)
      = if existsb (fun r => IPAddress.eqb (Route.getNetwork r) network) routes
        then ("Trasa została usunięta." ++ Text.nl)%string
        else ("Nie znaleziono podanej trasy." ++ Text.nl)%string) /\
  (forall (routes : RoutingTable.t) (network : IPAddress.t),
      (exists r, In r routes /\ Route.getNetwork r = network) <->
      snd (RoutingTable.removeRoute routes network)
      = ("Trasa została usunięta." ++ Text.nl)%string) /\
  (forall (routes : RoutingTable.t) (network : IPAddress.t),
      (forall r, In r routes -> Route.getNetwork r <> network) ->
      RoutingTable.removeRoute routes network
      = (routes, ("Nie znaleziono podanej trasy." ++ Text.nl)%string)) /\
  (forall (order : site -> eval_order) (n24 n25 g : IPAddress.t) (m : Z),
      IPAddress.make order "10.0.0.0/24" = Ok n24 ->
      IPAddress.make order "10.0.0.0/25" = Ok n25 ->
      RoutingTable.removeRoute [Route.mk n25 g m; Route.mk n24 g m; Route.mk n25 g m] n24
      = ([Route.mk n25 g m; Route.mk n25 g m], ("Trasa została usunięta." ++ Text.nl)%string)).
Proof.
  split; [|split; [|split; [|split; [|split; [|split]]]]].
  - intros routes network. rewrite removeRoute_filter. reflexivity.
  - apply IPAddress_eqb_fields.
  - intros routes network r. rewrite removeRoute_filter. cbn [fst].
    rewrite filter_In, negb_true_iff. unfold Route.getNetwork.
    rewrite <- IPAddress_eqb_fields.
    destruct (IPAddress.eqb (Route.network r) network); intuition congruence.
  - intros routes network. rewrite removeRoute_filter. reflexivity.
  - intros routes network. rewrite removeRoute_filter. cbn [snd].
    destruct (existsb (fun r => IPAddress.eqb (Route.network r) network) routes) eqn:E.
    + split; [reflexivity|]. intros _. apply existsb_exists in E.
      destruct E as (r & Hr & Heq). exists r. split; [exact Hr|].
      apply IPAddress_eqb_eq. exact Heq.
    + split; [|intros H; vm_compute in H; discriminate H].
      intros (r & Hr & Heq). exfalso.
      assert (T : existsb (fun r => IPAddress.eqb (Route.network r) network) routes = true).
      { apply existsb_exists. exists r. split; [exact Hr|]. apply IPAddress_eqb_eq. exact Heq. }
      congruence.
  - intros routes network Hnone. rewrite removeRoute_filter.
    assert (Hall : forall r, In r routes ->
                     negb (IPAddress.eqb (Route.network r) network) = true).
    { intros r Hr. apply negb_true_iff.
      destruct (IPAddress.eqb (Route.network r) network) eqn:E; [|reflexivity].
      apply IPAddress_eqb_eq in E. exfalso. apply (Hnone r Hr). exact E. }
    assert (Ef : filter (fun r => negb (IPAddress.eqb (Route.network r) network)) routes
                 = routes).
    { clear Hnone. induction routes as [|x routes IH]; [reflexivity|].
      cbn [filter]. rewrite (Hall x) by (left; reflexivity).
      f_equal. apply IH. intros r Hr. apply Hall. right. exact Hr. }
    assert (E : existsb (fun r => IPAddress.eqb (Route.network r) network) routes = false).
    { clear Hnone Ef. induction routes as [|x routes IH]; [reflexivity|].
      cbn [existsb]. pose proof (Hall x (or_introl eq_refl)) as Hx.
      apply negb_true_iff in Hx. rewrite Hx. cbn [orb].
      apply IH. intros r Hr. apply Hall. right. exact Hr. }
    rewrite Ef, E. reflexivity.
  - intros order n24 n25 g m H24 H25.
    rewrite make_10_0_0_24 in H24. rewrite make_10_0_0_25 in H25.
    assert (E24 : n24 = IPAddress.mk 167772160 24) by congruence.
    assert (E25 : n25 = IPAddress.mk 167772160 25) by congruence.
    subst. reflexivity.
Qed.

Lemma removeRoute_exact_network_witness :
  let n24 := IPAddress.mk 167772160 24 in
  let n25 := IPAddress.mk 167772160 25 in
  let g := IPAddress.mk 16843009 32 in
  RoutingTable.removeRoute [Route.mk n25 g 5] n24
  = ([Route.mk n25 g 5], ("Nie znaleziono podanej trasy." ++ Text.nl)%string) /\
  RoutingTable.removeRoute [Route.mk n25 g 5; Route.mk n24 g 5; Route.mk n25 g 5] n24
  = ([Route.mk n25 g 5; Route.mk n25 g 5], ("Trasa została usunięta." ++ Text.nl)%string).
Proof.
  intros n24 n25 g.
  destruct removeRoute_exact_network as (_ & _ & _ & _ & _ & Hnone & Hexample).
  split.
  - apply (Hnone [Route.mk n25 g 5] n24).
    intros r [<-|[]]. vm_compute. intros H. discriminate H.
  - assert (H24 : IPAddress.make (fun _ => left_first) "10.0.0.0/24" = Ok n24)
      by (vm_compute; reflexivity).
    assert (H25 : IPAddress.make (fun _ => left_first) "10.0.0.0/25" = Ok n25)
      by (vm_compute; reflexivity).
    exact (Hexample (fun _ => left_first) n24 n25 g 5 H24 H25).
Defined.

Lemma ascending_sorted_le (l : list Route.t) :
  StronglySorted ascending l ->
  StronglySorted (fun a b => Route.getMetric a <= Route.getMetric b) l.
Proof.
  induction 1 as [|x l Hs IH Hall]; constructor; [exact IH|].
  apply Forall_forall. intros y Hy. rewrite Forall_forall in Hall.
  apply ascending_le. apply Hall. exact Hy.
Qed.

Lemma print_inv (routes : RoutingTable.t) (text : string) :
  RoutingTable.print routes text ->
  (routes = [] /\ text = ("Tablica routingu jest pusta." ++ Text.nl)%string) \/
  (routes <> [] /\
   exists sorted, RoutingTable.sort_result RoutingTable.by_metric routes sorted /\
                  text = print_text sorted).
Proof.
  intros H. destruct H as [He|sorted Hne Hs].
  - left. split; [exact He | reflexivity].
  - right. split; [exact Hne|]. exists sorted. split; [exact Hs | reflexivity].
Qed.

Lemma show_keeps_state (order : site -> eval_order) (st st' : RouterCLI.t)
      (cmd rest : string) (go : bool) :
  RouterCLI.read_op cmd = ("show", rest) ->
  RouterCLI.run_line order st cmd st' go ->
  RouterCLI.table st' = RouterCLI.table st /\ RouterCLI.log st' = RouterCLI.log st /\
  exists text, RoutingTable.print (RouterCLI.table st) text /\
               RouterCLI.cout st' = (RouterCLI.cout st ++ text)%string.
Proof.
  intros Hshow H.
  destruct H as [r Hop|r Hop|r text Hop Hp|r Hop|r Hop|r Hop|op r Hop Hnot];
    rewrite Hshow in Hop; try discriminate Hop.
  - split; [reflexivity|]. split; [reflexivity|]. exists text. split; [exact Hp | reflexivity].
  - exfalso. apply Hnot. injection Hop as <- _. right; right; left; reflexivity.
Qed.

(** C6, as the program has it.  [print] writes a line for every entry in
    ascending order of metric; when the metrics are pairwise different this
    is the order of the stable sort (metrics 30, 10, 20 come out as 10, 20,
    30), otherwise [std::sort] leaves the order among equal metrics open,
    the order of insertion being one of the possible outcomes.  An empty
    table gives the message that it is empty, and [show] changes neither the
    table nor the log. *)
Theorem print_sorted_by_metric :
  (forall text : string,
      RoutingTable.print [] text <->
      text = ("Tablica routingu jest pusta." ++ Text.nl)%string) /\
  (forall (routes : RoutingTable.t) (text : string),
      routes <> [] ->
      RoutingTable.print routes text ->
      exists sorted,
        text = ("Aktualna tablica routingu:" ++ Text.nl ++
                String.concat "" (map RoutingTable.print_line sorted))%string /\
        Permutation routes sorted /\
        StronglySorted (fun a b => Route.getMetric a <= Route.getMetric b) sorted /\
        (NoDup (map Route.getMetric routes) -> sorted = stable_sort_by_metric routes)) /\
  (forall routes : RoutingTable.t,
      routes <> [] ->
      RoutingTable.print routes (print_text (stable_sort_by_metric routes))) /\
  (forall (r1 r2 r3 : Route.t) (text : string),
      Route.getMetric r1 = 30 -> Route.getMetric r2 = 10 -> Route.getMetric r3 = 20 ->
      RoutingTable.print [r1; r2; r3] text ->
      text = print_text [r2; r3; r1]) /\
  (forall (order : site -> eval_order) (st st' : RouterCLI.t) (cmd rest : string) (go : bool),
      RouterCLI.read_op cmd = ("show", rest) ->
      RouterCLI.run_line order st cmd st' go ->
      RouterCLI.table st' = RouterCLI.table st /\ RouterCLI.log st' = RouterCLI.log st).
Proof.
  split; [|split; [|split; [|split]]].
  - intros text. split.
    + intros H. apply print_inv in H. destruct H as [[_ E]|[Hne _]]; [exact E | congruence].
    + intros ->. apply RoutingTable.print_empty. reflexivity.
  - intros routes text Hne H. apply print_inv in H.
    destruct H as [[E _]|[_ (sorted & Hs & Et)]]; [congruence|].
    exists sorted. split; [exact Et|]. split; [apply Hs|].
    split; [apply ascending_sorted_le; apply Hs|].
    intros Hnd. apply sort_result_unique; assumption.
  - intros routes Hne. apply RoutingTable.print_sorted; [exact Hne | apply stable_sort_result].
  - intros r1 r2 r3 text H1 H2 H3 H. apply print_inv in H.
    destruct H as [[E _]|[_ (sorted & Hs & ->)]]; [discriminate E|].
    f_equal.
    destruct r1 as [n1 g1 m1], r2 as [n2 g2 m2], r3 as [n3 g3 m3].
    cbn [Route.getMetric Route.metric] in H1, H2, H3. subst m1 m2 m3.
    assert (Hnd : NoDup (map Route.metric [Route.mk n1 g1 30; Route.mk n2 g2 10;
                                           Route.mk n3 g3 20])).
    { cbn [map Route.metric]. repeat constructor; cbn [In]; intuition discriminate. }
    rewrite (sort_result_unique _ sorted Hnd Hs). reflexivity.
  - intros order st st' cmd rest go Hshow H.
    destruct (show_keeps_state order st st' cmd rest go Hshow H) as (Ht & Hl & _).
    split; assumption.
Qed.

Lemma print_sorted_by_metric_witness :
  let g := IPAddress.mk 16843009 32 in
  let r1 := Route.mk (IPAddress.mk 167772160 8) g 30 in
  let r2 := Route.mk (IPAddress.mk 167837696 16) g 10 in
  let r3 := Route.mk (IPAddress.mk 3232235776 24) g 20 in
  let st := RouterCLI.mk [r1; r2; r3] "" "" in
  RoutingTable.print [r1; r2; r3] (print_text (stable_sort_by_metric [r1; r2; r3])) /\
  print_text (stable_sort_by_metric [r1; r2; r3]) = print_text [r2; r3; r1] /\
  (exists sorted,
      print_text [r2; r3; r1]
      = ("Aktualna tablica routingu:" ++ Text.nl ++
         String.concat "" (map RoutingTable.print_line sorted))%string /\
      Permutation [r1; r2; r3] sorted /\
      StronglySorted (fun a b => Route.getMetric a <= Route.getMetric b) sorted /\
      (NoDup (map Route.getMetric [r1; r2; r3]) ->
       sorted = stable_sort_by_metric [r1; r2; r3])) /\
  RouterCLI.table (RouterCLI.write_cout st (print_text [r2; r3; r1])) = RouterCLI.table st /\
  RouterCLI.log (RouterCLI.write_cout st (print_text [r2; r3; r1])) = RouterCLI.log st.
Proof.
  intros g r1 r2 r3 st.
  destruct print_sorted_by_metric as (_ & Hsorted & Hstable & Hexample & Hshow).
  assert (Hp : RoutingTable.print [r1; r2; r3] (print_text (stable_sort_by_metric [r1; r2; r3])))
    by (apply Hstable; discriminate).
  assert (He : print_text (stable_sort_by_metric [r1; r2; r3]) = print_text [r2; r3; r1])
    by exact (Hexample r1 r2 r3 _ eq_refl eq_refl eq_refl Hp).
  split; [exact Hp|]. split; [exact He|]. split.
  - rewrite <- He. apply (Hsorted [r1; r2; r3]); [discriminate | exact Hp].
  - apply (Hshow (fun _ => left_first) st _ "show" "" true); [reflexivity|].
    apply (RouterCLI.line_show _ st "show" "" (print_text [r2; r3; r1])); [reflexivity|].
    rewrite <- He. exact Hp.
Defined.

Lemma mask_low_bits (p i : Z) :
  0 <= p <= 32 -> 0 <= i < 32 - p -> Z.testbit (2 ^ 32 - 2 ^ (32 - p)) i = false.
Proof.
  intros Hp Hi.
  replace (2 ^ 32 - 2 ^ (32 - p)) with ((2 ^ p - 1) * 2 ^ (32 - p)).
  - apply Z.mul_pow2_bits_low. lia.
  - rewrite Z.mul_sub_distr_r, <- Z.pow_add_r by lia.
    replace (p + (32 - p)) with 32 by lia. lia.
Qed.

(** The bits of a valid address below its prefix are zero. *)
Lemma valid_host_bits (ip : IPAddress.t) (i : Z) :
  IPAddress.valid ip -> 0 <= i < 32 - IPAddress.prefix ip ->
  Z.testbit (IPAddress.addr ip) i = false.
Proof.
  intros (Hp & _ & mask & Hmask & Hland) Hi.
  destruct (maskFromPrefix_ok_inv _ _ Hmask) as [_ Hm].
  rewrite <- Hland, Z.land_spec, Hm, mask_low_bits by assumption.
  apply andb_false_r.
Qed.

Lemma make_192_168_1_5_24 (order : site -> eval_order) :
  IPAddress.make order "192.168.1.5/24" = Ok (IPAddress.mk 3232235776 24).
Proof. make_literal. Qed.

(** C4. An address built from text is cut to its prefix: the stored value
    is unchanged by the mask of the prefix, all bits below the prefix are
    zero, prefix 0 has mask 0 and prefix 32 mask 0xFFFFFFFF.  No command
    breaks this for the addresses in the table.  Printing such an address
    and reading the text again gives the same address, a well-formed text
    [a.b.c.d/n] yields the dotted quad cut to [n] bits, and 192.168.1.5/24
    prints as 192.168.1.0/24. *)
Theorem constructed_address_masked :
  (forall (order : site -> eval_order) (cidr : string) (ip : IPAddress.t),
      IPAddress.make order cidr = Ok ip ->
      0 <= IPAddress.prefix ip <= 32 /\
      (exists mask, maskFromPrefix (IPAddress.prefix ip) = Ok mask /\
                    Z.land (IPAddress.addr ip) mask = IPAddress.addr ip) /\
      (forall i, 0 <= i < 32 - IPAddress.prefix ip ->
                 Z.testbit (IPAddress.addr ip) i = false)) /\
  maskFromPrefix 0 = Ok 0 /\
  maskFromPrefix 32 = Ok 0xFFFFFFFF /\
  (forall (order : site -> eval_order) (c : command) (ss : string)
          (st st' : RouterCLI.t) (r : result unit),
      RoutingTable.valid (RouterCLI.table st) ->
      handle order c ss st = (st', r) ->
      RoutingTable.valid (RouterCLI.table st')) /\
  (forall (order : site -> eval_order) (lines : list string) (st' : RouterCLI.t),
      RouterCLI.run order (RouterCLI.mk [] "" "") lines st' ->
      RoutingTable.valid (RouterCLI.table st')) /\
  (forall (order : site -> eval_order) (cidr : string) (ip : IPAddress.t),
      IPAddress.make order cidr = Ok ip ->
      IPAddress.make order (IPAddress.toString ip) = Ok ip) /\
  (forall (order : site -> eval_order) (a b c d n : Z),
      0 <= a <= 255 -> 0 <= b <= 255 -> 0 <= c <= 255 -> 0 <= d <= 255 -> 0 <= n <= 32 ->
      exists ip,
        IPAddress.make order (quad_text a b c d ("/" ++ Text.decimal n)) = Ok ip /\
        IPAddress.prefix ip = n /\
        IPAddress.addr ip
        = Z.land (a * 2 ^ 24 + b * 2 ^ 16 + c * 2 ^ 8 + d) (2 ^ 32 - 2 ^ (32 - n)) /\
        IPAddress.toString ip
        = quad_text (Z.land (Z.shiftr (IPAddress.addr ip) 24) 0xFF)
                    (Z.land (Z.shiftr (IPAddress.addr ip) 16) 0xFF)
                    (Z.land (Z.shiftr (IPAddress.addr ip) 8) 0xFF)
                    (Z.land (IPAddress.addr ip) 0xFF)
                    ("/" ++ Text.decimal n)) /\
  (forall order : site -> eval_order,
      exists ip, IPAddress.make order "192.168.1.5/24" = Ok ip /\
                 IPAddress.toString ip = "192.168.1.0/24").
Proof.
  split; [|split; [|split; [|split; [|split; [|split; [|split]]]]]].
  - intros order cidr ip H. apply make_valid in H.
    pose proof H as (Hp & _ & Hmask).
    split; [exact Hp|]. split; [exact Hmask|].
    intros i Hi. apply valid_host_bits; assumption.
  - reflexivity.
  - reflexivity.
  - intros order c ss st st' r. apply handle_valid.
  - apply run_valid.
  - intros order cidr ip H. apply make_toString. apply (make_valid _ _ _ H).
  - intros order a b c d n Ha Hb Hc Hd Hn.
    eexists. split.
    + apply make_quad_slash_ok; try (apply in_int_small; lia). exact Hn.
    + cbn [IPAddress.prefix IPAddress.addr]. split; [reflexivity|].
      rewrite quad_value_octets by assumption. split; [reflexivity|].
      apply toString_quad_text.
  - intros order. eexists. split; [apply make_192_168_1_5_24|]. vm_compute. reflexivity.
Qed.

Lemma constructed_address_masked_witness :
  (0 <= 24 <= 32 /\
   (exists mask, maskFromPrefix 24 = Ok mask /\ Z.land 3232235776 mask = 3232235776) /\
   (forall i, 0 <= i < 32 - 24 -> Z.testbit 3232235776 i = false)) /\
  IPAddress.make (fun _ => left_first) (IPAddress.toString (IPAddress.mk 3232235776 24))
  = Ok (IPAddress.mk 3232235776 24) /\
  RoutingTable.valid
    (RouterCLI.table
       (fst (handle (fun _ => left_first) cmd_add " 192.168.1.5/24 10.0.0.1 7"
                    (RouterCLI.mk [] "" "")))).
Proof.
  assert (H : IPAddress.make (fun _ => left_first) "192.168.1.5/24"
              = Ok (IPAddress.mk 3232235776 24)) by (vm_compute; reflexivity).
  destruct constructed_address_masked as (Hmasked & _ & _ & Hhandle & _ & Hround & _).
  split; [|split].
  - exact (Hmasked _ _ _ H).
  - exact (Hround _ _ _ H).
  - apply (Hhandle (fun _ => left_first) cmd_add " 192.168.1.5/24 10.0.0.1 7"
                   (RouterCLI.mk [] "" "") _
                   (snd (handle (fun _ => left_first) cmd_add " 192.168.1.5/24 10.0.0.1 7"
                                (RouterCLI.mk [] "" "")))).
    + apply Forall_nil.
    + apply surjective_pairing.
Defined.

(** Octets are not checked against 255: 999.1.1.1 is accepted, stored with
    the low eight bits of 999 as first octet, and can be added as a
    gateway.  A prefix too large for an [int] is refused by [std::stoi], not
    by [maskFromPrefix]. *)
Lemma octet_999_accepted :
  IPAddress.make (fun _ => left_first) "999.1.1.1" = Ok (IPAddress.mk 3875602689 32) /\
  IPAddress.make (fun _ => right_first) "999.1.1.1" = Ok (IPAddress.mk 3875602689 32) /\
  IPAddress.toString (IPAddress.mk 3875602689 32) = "231.1.1.1/32" /\
  RouterCLI.handleAdd (fun _ => left_first) " 10.0.0.0/8 999.1.1.1 1" (RouterCLI.mk [] "" "")
  = (RouterCLI.mk [Route.mk (IPAddress.mk 167772160 8) (IPAddress.mk 3875602689 32) 1]
                  ("ADD 10.0.0.0/8 przez 999.1.1.1 metryka 1" ++ Text.nl)
                  ("Dodano trasę." ++ Text.nl),
     Ok tt) /\
  IPAddress.make (fun _ => left_first) "1.1.1.1/99999999999" = Throw stoi_out_of_range /\
  IPAddress.make (fun _ => right_first) "1.1.1.1/99999999999" = Throw stoi_out_of_range.
Proof. repeat split; vm_compute; reflexivity. Qed.

Lemma ipToUint_throw_inv (ip : string) (e : exn) :
  ipToUint ip = Throw e -> e = bad_ip_format ip.
Proof.
  unfold ipToUint.
  destruct (sscanf_dotted_quad (Text.c_str ip)) as [|p0 [|p1 [|p2 [|p3 [|? ?]]]]];
    intros H; try (injection H as <-; reflexivity). discriminate H.
Qed.

(** C7, as the program has it.  The constructor fails with the exception
    of [maskFromPrefix] when the text after the slash is an [int] outside
    0..32 and the dotted quad scans (for example /33); with the exception
    of [ipToUint] when four numbers separated by dots cannot be scanned and
    the prefix is absent or in 0..32; with the exception of [std::stoi]
    when the text after the slash is no [int].  It accepts every text
    [a.b.c.d] and [a.b.c.d/n] with octets in 0..255 and [n] in 0..32, with
    prefix 32 when there is no slash. *)
Theorem make_failures :
  (forall (order : site -> eval_order) (cidr : string) (i : nat) (n raw : Z),
      Text.find "/"%char cidr = Some i ->
      stoi (Text.substr cidr (S i) None) = Ok n ->
      n < 0 \/ 32 < n ->
      (ipToUint (Text.substr cidr 0 (Some i)) = Ok raw ->
       IPAddress.make order cidr = Throw bad_prefix) /\
      (exists e, IPAddress.make order cidr = Throw e /\
                 (e = bad_prefix \/ e = bad_ip_format (Text.substr cidr 0 (Some i))))) /\
  (forall (order : site -> eval_order) (cidr : string) (e : exn),
      ipToUint (Text.substr cidr 0 (Text.find "/"%char cidr)) = Throw e ->
      match Text.find "/"%char cidr with
      | None => True
      | Some i => exists n, stoi (Text.substr cidr (S i) None) = Ok n /\ 0 <= n <= 32
      end ->
      IPAddress.make order cidr
      = Throw (bad_ip_format (Text.substr cidr 0 (Text.find "/"%char cidr)))) /\
  (forall ip : string,
      (exists e, ipToUint ip = Throw e) <->
      List.length (sscanf_dotted_quad (Text.c_str ip)) <> 4%nat) /\
  (forall (order : site -> eval_order) (cidr : string) (i : nat) (e : exn),
      Text.find "/"%char cidr = Some i ->
      stoi (Text.substr cidr (S i) None) = Throw e ->
      IPAddress.make order cidr = Throw e) /\
  (forall (order : site -> eval_order) (a b c d : Z),
      0 <= a <= 255 -> 0 <= b <= 255 -> 0 <= c <= 255 -> 0 <= d <= 255 ->
      IPAddress.make order (quad_text a b c d "")
      = Ok (IPAddress.mk (a * 2 ^ 24 + b * 2 ^ 16 + c * 2 ^ 8 + d) 32) /\
      forall n, 0 <= n <= 32 ->
        IPAddress.make order (quad_text a b c d ("/" ++ Text.decimal n))
        = Ok (IPAddress.mk (Z.land (a * 2 ^ 24 + b * 2 ^ 16 + c * 2 ^ 8 + d)
                                   (2 ^ 32 - 2 ^ (32 - n))) n)) /\
  (forall order : site -> eval_order,
      IPAddress.make order "1.1.1.1/33" = Throw bad_prefix /\
      IPAddress.make order "1.2.3" = Throw (bad_ip_format "1.2.3") /\
      IPAddress.make order "a.b.c.d/8" = Throw (bad_ip_format "a.b.c.d") /\
      IPAddress.make order "1.1.1.1/x" = Throw stoi_invalid_argument /\
      IPAddress.make order "1.1.1.1/99999999999" = Throw stoi_out_of_range /\
      IPAddress.make order "192.168.0.1" = Ok (IPAddress.mk 3232235521 32)).
Proof.
  split; [|split; [|split; [|split; [|split]]]].
  - intros order cidr i n raw Hfind Hstoi Hn.
    unfold IPAddress.make. rewrite Hfind, Hstoi. cbn [bind].
    rewrite (maskFromPrefix_throws n Hn). split.
    + intros Hraw. rewrite Hraw, both_ok_throw. reflexivity.
    + destruct (ipToUint (Text.substr cidr 0 (Some i))) as [raw'|e'] eqn:E.
      * exists bad_prefix. rewrite both_ok_throw. split; [reflexivity | left; reflexivity].
      * apply ipToUint_throw_inv in E. subst e'.
        destruct (order site_addr_and_mask); cbn [both bind]; eexists; split;
          try reflexivity; auto.
  - intros order cidr e Hip Hprefix. unfold IPAddress.make.
    pose proof (ipToUint_throw_inv _ _ Hip) as ->.
    destruct (Text.find "/"%char cidr) as [i|].
    + destruct Hprefix as (n & Hstoi & Hn). rewrite Hstoi. cbn [bind].
      rewrite Hip, (maskFromPrefix_value n Hn), both_throw_ok. reflexivity.
    + cbn [bind]. rewrite Hip, (maskFromPrefix_value 32) by lia.
      rewrite both_throw_ok. reflexivity.
  - intros ip. unfold ipToUint.
    destruct (sscanf_dotted_quad (Text.c_str ip)) as [|p0 [|p1 [|p2 [|p3 [|? ?]]]]];
      cbn [List.length]; split;
      try (intros _; solve [discriminate | eexists; reflexivity]);
      try (intros [e He]; discriminate He);
      try (intros H; exfalso; apply H; reflexivity).
  - intros order cidr i e Hfind Hstoi. unfold IPAddress.make.
    rewrite Hfind, Hstoi. reflexivity.
  - intros order a b c d Ha Hb Hc Hd.
    rewrite <- (quad_value_octets a b c d) by assumption. split.
    + apply make_quad_plain_ok; apply in_int_small; lia.
    + intros n Hn. apply make_quad_slash_ok; try (apply in_int_small; lia). exact Hn.
  - intros order.
    repeat split; unfold IPAddress.make;
      destruct (order site_addr_and_mask); vm_compute; reflexivity.
Qed.

Lemma make_failures_witness :
  IPAddress.make (fun _ => left_first) "1.1.1.1/33" = Throw bad_prefix /\
  IPAddress.make (fun _ => right_first) "1.2.3/24" = Throw (bad_ip_format "1.2.3") /\
  IPAddress.make (fun _ => left_first) "1.1.1.1/x" = Throw stoi_invalid_argument /\
  IPAddress.make (fun _ => left_first) (quad_text 192 168 1 5 "")
  = Ok (IPAddress.mk (192 * 2 ^ 24 + 168 * 2 ^ 16 + 1 * 2 ^ 8 + 5) 32).
Proof.
  destruct make_failures as (Hprefix & Hformat & _ & Hstoi & Hgood & _).
  split; [|split; [|split]].
  - apply (proj1 (Hprefix (fun _ => left_first) "1.1.1.1/33" 7%nat 33 16843009
                          eq_refl eq_refl ltac:(right; lia))).
    vm_compute. reflexivity.
  - apply (Hformat (fun _ => right_first) "1.2.3/24" (bad_ip_format "1.2.3")).
    + vm_compute. reflexivity.
    + exists 24. split; [vm_compute; reflexivity | lia].
  - apply (Hstoi (fun _ => left_first) "1.1.1.1/x" 7%nat stoi_invalid_argument).
    + reflexivity.
    + vm_compute. reflexivity.
  - apply (proj1 (Hgood (fun _ => left_first) 192 168 1 5 ltac:(lia) ltac:(lia)
                        ltac:(lia) ltac:(lia))).
Defined.

(** C8. When [add], [del] or [send] fails with an exception, the routing
    table and the log are what they were before the command. *)
Theorem failed_command_changes_nothing :
  forall (order : site -> eval_order) (c : command) (ss : string)
         (st st' : RouterCLI.t) (e : exn),
    handle order c ss st = (st', Throw e) ->
    RouterCLI.table st' = RouterCLI.table st /\ RouterCLI.log st' = RouterCLI.log st.
Proof. exact handle_throw. Qed.

Lemma failed_command_changes_nothing_witness :
  let r := Route.mk (IPAddress.mk 167772160 8) (IPAddress.mk 16843009 32) 5 in
  let st := RouterCLI.mk [r] "ADD 10.0.0.0/8 przez 1.1.1.1 metryka 5" "" in
  handle (fun _ => left_first) cmd_add " 10.1.0.0/16 999.1.1.1/33 7" st = (st, Throw bad_prefix) /\
  RouterCLI.table st = [r] /\
  RouterCLI.log st = "ADD 10.0.0.0/8 przez 1.1.1.1 metryka 5".
Proof.
  intros r st.
  assert (H : handle (fun _ => left_first) cmd_add " 10.1.0.0/16 999.1.1.1/33 7" st
              = (st, Throw bad_prefix)) by (vm_compute; reflexivity).
  split; [exact H|].
  exact (failed_command_changes_nothing _ _ _ _ _ _ H).
Defined.



Lemma extract_int_decimal (m : Z) :
  Int.in_int m = true ->
  RouterCLI.extract_int (String " "%char (Text.decimal m)) = Some (m, EmptyString).
Proof.
  intros Hm. unfold RouterCLI.extract_int.
  change (Text.scan_decimal (String " "%char (Text.decimal m)))
    with (Text.scan_decimal (Text.decimal m)).
  rewrite <- (TextFacts.append_nil_r (Text.decimal m)) at 1.
  rewrite TextFacts.scan_decimal_decimal by exact I. rewrite Hm. reflexivity.
Qed.

(** The line [net gw m] is read back as its three parts. *)
Lemma read_add_args_line (net gw : string) (m : Z) :
  net <> EmptyString -> gw <> EmptyString ->
  all_chars no_space net = true -> all_chars no_space gw = true ->
  Int.in_int m = true ->
  RouterCLI.read_add_args (net ++ " " ++ gw ++ " " ++ Text.decimal m) = Some (net, gw, m).
Proof.
  intros Hn Hg Hns Hgs Hm. unfold RouterCLI.read_add_args.
  cbn [append].
  rewrite (TextFacts.extract_string_word net) by (assumption || reflexivity).
  rewrite TextFacts.extract_string_skip.
  rewrite (TextFacts.extract_string_word gw) by (assumption || reflexivity).
  rewrite extract_int_decimal by exact Hm. reflexivity.
Qed.

Lemma extract_int_decimal_beyond (m : Z) :
  Int.in_int m = false ->
  RouterCLI.extract_int (String " "%char (Text.decimal m)) = None.
Proof.
  intros Hm. unfold RouterCLI.extract_int.
  change (Text.scan_decimal (String " "%char (Text.decimal m)))
    with (Text.scan_decimal (Text.decimal m)).
  rewrite <- (TextFacts.append_nil_r (Text.decimal m)) at 1.
  rewrite TextFacts.scan_decimal_decimal by exact I. rewrite Hm. reflexivity.
Qed.

Lemma read_add_args_line_beyond (net gw : string) (m : Z) :
  net <> EmptyString -> gw <> EmptyString ->
  all_chars no_space net = true -> all_chars no_space gw = true ->
  Int.in_int m = false ->
  RouterCLI.read_add_args (net ++ " " ++ gw ++ " " ++ Text.decimal m) = None.
Proof.
  intros Hn Hg Hns Hgs Hm. unfold RouterCLI.read_add_args.
  cbn [append].
  rewrite (TextFacts.extract_string_word net) by (assumption || reflexivity).
  rewrite TextFacts.extract_string_skip.
  rewrite (TextFacts.extract_string_word gw) by (assumption || reflexivity).
  rewrite extract_int_decimal_beyond by exact Hm. reflexivity.
Qed.

(** A metric that is an integer but no [int] is not read by [ss >> m]: the
    command prints the usage text and adds no route, although both
    addresses are fine. *)
Lemma metric_beyond_int_not_added :
  RouterCLI.handleAdd (fun _ => left_first) " 10.0.0.0/8 1.1.1.1 2147483648"
                      (RouterCLI.mk [] "" "")
  = (RouterCLI.mk [] "" ("Użycie: add <sieć> <brama> <metryka>" ++ Text.nl), Ok tt) /\
  RouterCLI.handleAdd (fun _ => right_first) " 10.0.0.0/8 1.1.1.1 2147483648"
                      (RouterCLI.mk [] "" "")
  = (RouterCLI.mk [] "" ("Użycie: add <sieć> <brama> <metryka>" ++ Text.nl), Ok tt) /\
  IPAddress.make (fun _ => left_first) "10.0.0.0/8" = Ok (IPAddress.mk 167772160 8) /\
  IPAddress.make (fun _ => left_first) "1.1.1.1" = Ok (IPAddress.mk 16843009 32) /\
  RouterCLI.handleAdd (fun _ => left_first) " 10.0.0.0/8 1.1.1.1 2147483647"
                      (RouterCLI.mk [] "" "")
  = (RouterCLI.mk [Route.mk (IPAddress.mk 167772160 8) (IPAddress.mk 16843009 32) 2147483647]
                  ("ADD 10.0.0.0/8 przez 1.1.1.1 metryka 2147483647" ++ Text.nl)
                  ("Dodano trasę." ++ Text.nl),
     Ok tt).
Proof. repeat split; vm_compute; reflexivity. Qed.

(** C10, as the program has it.  [handleAdd] does not look at the metric
    it has read: for two accepted addresses and every metric in the range
    of [int], negative ones included, the line [net gw m] appends the route
    with exactly that metric.  A metric outside the range of [int] is not
    read by [ss >> m]: the command then prints the usage text, and the
    table and the log stay as they are. *)
Theorem handleAdd_int_metric :
  (forall (order : site -> eval_order) (ss : string) (st : RouterCLI.t)
          (net gw : string) (m : Z) (n g : IPAddress.t),
      RouterCLI.read_add_args ss = Some (net, gw, m) ->
      IPAddress.make order net = Ok n ->
      IPAddress.make order gw = Ok g ->
      exists st',
        RouterCLI.handleAdd order ss st = (st', Ok tt) /\
        RouterCLI.table st' = RouterCLI.table st ++ [Route.mk n g m] /\
        RouterCLI.log st'
        = (RouterCLI.log st ++ "ADD " ++ net ++ " przez " ++ gw ++ " metryka " ++
           Text.decimal m ++ Text.nl)%string) /\
  (forall (net gw : string) (m : Z),
      net <> EmptyString -> gw <> EmptyString ->
      all_chars no_space net = true -> all_chars no_space gw = true ->
      Int.INT_MIN <= m <= Int.INT_MAX ->
      RouterCLI.read_add_args (net ++ " " ++ gw ++ " " ++ Text.decimal m)
      = Some (net, gw, m)) /\
  (forall (order : site -> eval_order) (st : RouterCLI.t) (net gw : string) (m : Z)
          (n g : IPAddress.t),
      all_chars no_space net = true -> all_chars no_space gw = true ->
      IPAddress.make order net = Ok n ->
      IPAddress.make order gw = Ok g ->
      (Int.INT_MIN <= m <= Int.INT_MAX ->
       exists st',
         RouterCLI.handleAdd order (net ++ " " ++ gw ++ " " ++ Text.decimal m) st = (st', Ok tt) /\
         RouterCLI.table st' = RouterCLI.table st ++ [Route.mk n g m]) /\
      (m < Int.INT_MIN \/ Int.INT_MAX < m ->
       RouterCLI.handleAdd order (net ++ " " ++ gw ++ " " ++ Text.decimal m) st
       = (RouterCLI.write_cout st ("Użycie: add <sieć> <brama> <metryka>" ++ Text.nl), Ok tt))) /\
  (forall order : site -> eval_order,
      RouterCLI.handleAdd order " 10.0.0.0/8 1.1.1.1 -5" (RouterCLI.mk [] "" "")
      = (RouterCLI.mk [Route.mk (IPAddress.mk 167772160 8) (IPAddress.mk 16843009 32) (-5)]
                      ("ADD 10.0.0.0/8 przez 1.1.1.1 metryka -5" ++ Text.nl)
                      ("Dodano trasę." ++ Text.nl),
         Ok tt)).
Proof.
  assert (Hrange : forall m, Int.INT_MIN <= m <= Int.INT_MAX -> Int.in_int m = true).
  { intros m Hm. unfold Int.in_int. apply andb_true_iff. split; apply Z.leb_le; lia. }
  assert (Hbeyond : forall m, m < Int.INT_MIN \/ Int.INT_MAX < m -> Int.in_int m = false).
  { intros m Hm. unfold Int.in_int. apply andb_false_iff.
    destruct Hm as [L|G]; [left | right]; apply Z.leb_gt; exact L || exact G. }
  assert (Hword : forall (order : site -> eval_order) w n,
             IPAddress.make order w = Ok n -> w <> EmptyString).
  { intros order w n H ->. unfold IPAddress.make in H. cbn in H.
    destruct (order site_addr_and_mask); discriminate H. }
  split; [|split; [|split]].
  - intros order ss st net gw m n g Hargs Hn Hg.
    eexists. split; [apply (handleAdd_ok order ss st net gw m n g); assumption|].
    cbn [RouterCLI.table RouterCLI.log]. split; reflexivity.
  - intros net gw m Hn Hg Hns Hgs Hm. apply read_add_args_line; try assumption.
    apply Hrange. exact Hm.
  - intros order st net gw m n g Hns Hgs Hn Hg.
    pose proof (Hword order net n Hn) as Hne. pose proof (Hword order gw g Hg) as Hge.
    split.
    + intros Hm. eexists.
      split; [apply (handleAdd_ok order _ st net gw m n g); try assumption;
              apply read_add_args_line; try assumption; apply Hrange; exact Hm|].
      reflexivity.
    + intros Hm. unfold RouterCLI.handleAdd.
      rewrite read_add_args_line_beyond by (try assumption; apply Hbeyond; exact Hm).
      reflexivity.
  - intros order.
    assert (Hargs : RouterCLI.read_add_args " 10.0.0.0/8 1.1.1.1 -5"
                    = Some ("10.0.0.0/8", "1.1.1.1", -5)) by (vm_compute; reflexivity).
    assert (Hg : IPAddress.make order "1.1.1.1" = Ok (IPAddress.mk 16843009 32))
      by make_literal.
    rewrite (handleAdd_ok order _ _ _ _ _ _ _ Hargs (make_10_8 order) Hg).
    reflexivity.
Qed.

Lemma handleAdd_int_metric_witness :
  (exists st',
      RouterCLI.handleAdd (fun _ => left_first) ("10.0.0.0/8" ++ " " ++ "1.1.1.1" ++ " " ++
                                                 Text.decimal (-2147483648))
                          (RouterCLI.mk [] "" "") = (st', Ok tt) /\
      RouterCLI.table st'
      = [] ++ [Route.mk (IPAddress.mk 167772160 8) (IPAddress.mk 16843009 32) (-2147483648)]) /\
  RouterCLI.handleAdd (fun _ => left_first) ("10.0.0.0/8" ++ " " ++ "1.1.1.1" ++ " " ++
                                             Text.decimal 2147483648)
                      (RouterCLI.mk [] "" "")
  = (RouterCLI.write_cout (RouterCLI.mk [] "" "")
                          ("Użycie: add <sieć> <brama> <metryka>" ++ Text.nl), Ok tt) /\
  RouterCLI.read_add_args ("10.0.0.0/8" ++ " " ++ "1.1.1.1" ++ " " ++ Text.decimal (-2147483648))
  = Some ("10.0.0.0/8", "1.1.1.1", -2147483648).
Proof.
  destruct handleAdd_int_metric as (_ & Hread & Hline & _).
  assert (Hn : IPAddress.make (fun _ => left_first) "10.0.0.0/8"
               = Ok (IPAddress.mk 167772160 8)) by (vm_compute; reflexivity).
  assert (Hg : IPAddress.make (fun _ => left_first) "1.1.1.1"
               = Ok (IPAddress.mk 16843009 32)) by (vm_compute; reflexivity).
  split; [|split].
  - apply (proj1 (Hline (fun _ => left_first) (RouterCLI.mk [] "" "") "10.0.0.0/8" "1.1.1.1"
                        (-2147483648) _ _ eq_refl eq_refl Hn Hg)).
    unfold Int.INT_MIN, Int.INT_MAX. lia.
  - apply (proj2 (Hline (fun _ => left_first) (RouterCLI.mk [] "" "") "10.0.0.0/8" "1.1.1.1"
                        2147483648 _ _ eq_refl eq_refl Hn Hg)).
    right. unfold Int.INT_MAX. lia.
  - apply (Hread "10.0.0.0/8" "1.1.1.1" (-2147483648)); try discriminate; try reflexivity.
    unfold Int.INT_MIN, Int.INT_MAX. lia.
Defined.

(* ================================================================== *)
(** * Further properties of the program *)

(** ** Masks and containment *)

Lemma land_mask_div (x p : Z) :
  0 <= x < 2 ^ 32 -> 0 <= p <= 32 ->
  Z.land x (2 ^ 32 - 2 ^ (32 - p)) = x / 2 ^ (32 - p) * 2 ^ (32 - p).
Proof.
  intros Hx Hp.
  rewrite <- Z.shiftr_div_pow2, <- Z.shiftl_mul_pow2 by lia.
  apply Z.bits_inj'. intros i Hi.
  rewrite Z.land_spec, mask_testbit by assumption.
  rewrite Z.shiftl_spec by exact Hi.
  destruct (Z.leb_spec (32 - p) i) as [L|G]; cbn [andb].
  - rewrite Z.shiftr_spec by lia. replace (i - (32 - p) + (32 - p)) with i by lia.
    destruct (Z.ltb_spec i 32) as [L32|G32]; [apply andb_true_r|].
    rewrite andb_false_r. symmetry.
    destruct (Z.eq_dec x 0) as [->|Hz]; [apply Z.bits_0|].
    apply Z.bits_above_log2; [lia|].
    assert (2 ^ 32 <= 2 ^ i) by (apply Z.pow_le_mono_r; lia).
    apply Z.log2_lt_pow2; lia.
  - rewrite andb_false_r. symmetry. apply Z.testbit_neg_r. lia.
Qed.

Lemma valid_addr_div (ip : IPAddress.t) :
  IPAddress.valid ip ->
  IPAddress.addr ip
  = IPAddress.addr ip / 2 ^ (32 - IPAddress.prefix ip) * 2 ^ (32 - IPAddress.prefix ip).
Proof.
  intros (Hp & Ha & mask & Hmask & Hland).
  destruct (maskFromPrefix_ok_inv _ _ Hmask) as [_ Hm].
  rewrite <- land_mask_div by assumption. rewrite <- Hm. symmetry. exact Hland.
Qed.

Lemma matches_div (self other : IPAddress.t) :
  IPAddress.valid self -> 0 <= IPAddress.addr other < 2 ^ 32 ->
  (IPAddress.matches self other = Ok true <->
   IPAddress.addr other / 2 ^ (32 - IPAddress.prefix self)
   = IPAddress.addr self / 2 ^ (32 - IPAddress.prefix self)).
Proof.
  intros Hv Ho. pose proof (valid_addr_div self Hv) as Hs.
  destruct Hv as (Hp & _).
  rewrite matches_valid by exact Hp. rewrite land_mask_div by assumption.
  set (k := 2 ^ (32 - IPAddress.prefix self)) in *.
  assert (Hk : 0 < k) by (apply Z.pow_pos_nonneg; lia).
  clearbody k.
  destruct (Z.eqb_spec (IPAddress.addr other / k * k) (IPAddress.addr self)) as [E|N].
  - split; [intros _|reflexivity].
    rewrite <- E. rewrite Z.div_mul by lia. reflexivity.
  - split; [intros H; discriminate H|].
    intros E. exfalso. apply N. rewrite E. symmetry. exact Hs.
Qed.

(** X1. [maskFromPrefix] throws exactly for a prefix outside 0..32;
    otherwise the mask is below 2^32 and has exactly its [prefix] highest
    bits set, so that the mask of a shorter prefix is contained in the mask
    of a longer one. *)
Theorem maskFromPrefix_bits :
  (forall p : Z, p < 0 \/ 32 < p -> maskFromPrefix p = Throw bad_prefix) /\
  (forall p : Z, 0 <= p <= 32 ->
     exists m, maskFromPrefix p = Ok m /\ 0 <= m < 2 ^ 32 /\
               forall i, 0 <= i -> Z.testbit m i = (32 - p <=? i) && (i <? 32)) /\
  (forall p q mp mq : Z,
     maskFromPrefix p = Ok mp -> maskFromPrefix q = Ok mq -> p <= q ->
     Z.land mp mq = mp).
Proof.
  split; [|split].
  - exact maskFromPrefix_throws.
  - intros p Hp. exists (2 ^ 32 - 2 ^ (32 - p)).
    split; [apply maskFromPrefix_value; exact Hp|].
    split; [apply mask_range; exact Hp|].
    intros i Hi. apply mask_testbit; assumption.
  - intros p q mp mq Hmp Hmq Hpq.
    destruct (maskFromPrefix_ok_inv _ _ Hmp) as [Hp ->].
    destruct (maskFromPrefix_ok_inv _ _ Hmq) as [Hq ->].
    apply Z.bits_inj'. intros i Hi.
    rewrite Z.land_spec, !mask_testbit by assumption.
    destruct (Z.leb_spec (32 - p) i), (Z.leb_spec (32 - q) i), (Z.ltb_spec i 32);
      try reflexivity; lia.
Qed.

Lemma maskFromPrefix_bits_witness :
  maskFromPrefix 33 = Throw bad_prefix /\
  (exists m, maskFromPrefix 24 = Ok m /\ 0 <= m < 2 ^ 32 /\
             forall i, 0 <= i -> Z.testbit m i = (32 - 24 <=? i) && (i <? 32)) /\
  Z.land 4278190080 4294967040 = 4278190080.
Proof.
  destruct maskFromPrefix_bits as (Hthrow & Hbits & Hnest).
  split; [|split].
  - apply Hthrow. right. lia.
  - apply Hbits. lia.
  - apply (Hnest 8 24); [vm_compute; reflexivity | vm_compute; reflexivity | lia].
Defined.

(** X2. For an address built by the constructor, [matches] holds exactly
    when the other address agrees with it on the leading [prefix] bits;
    prefix 0 matches every address and prefix 32 only the address itself. *)
Theorem matches_leading_bits :
  forall self other : IPAddress.t,
    IPAddress.valid self -> 0 <= IPAddress.addr other < 2 ^ 32 ->
    (IPAddress.matches self other = Ok true <->
     IPAddress.addr other / 2 ^ (32 - IPAddress.prefix self)
     = IPAddress.addr self / 2 ^ (32 - IPAddress.prefix self)) /\
    (IPAddress.prefix self = 0 -> IPAddress.matches self other = Ok true) /\
    (IPAddress.prefix self = 32 ->
     (IPAddress.matches self other = Ok true <->
      IPAddress.addr other = IPAddress.addr self)).
Proof.
  intros self other Hv Ho. pose proof (matches_div self other Hv Ho) as Hd.
  split; [exact Hd|]. split.
  - intros H0. apply Hd. rewrite H0.
    destruct Hv as (_ & Ha & _). change (2 ^ (32 - 0)) with (2 ^ 32).
    rewrite !Z.div_small by assumption. reflexivity.
  - intros H32. rewrite Hd, H32. change (2 ^ (32 - 32)) with 1.
    rewrite !Z.div_1_r. reflexivity.
Qed.

Lemma matches_leading_bits_witness :
  let net := IPAddress.mk 167772160 8 in
  let host := IPAddress.mk 167838211 32 in
  (IPAddress.matches net host = Ok true <-> 167838211 / 2 ^ (32 - 8) = 167772160 / 2 ^ (32 - 8)) /\
  (IPAddress.prefix net = 0 -> IPAddress.matches net host = Ok true) /\
  (IPAddress.prefix net = 32 -> (IPAddress.matches net host = Ok true <-> 167838211 = 167772160)).
Proof.
  intros net host.
  apply (matches_leading_bits net host).
  - unfold net. ip_valid_literal.
  - cbn [IPAddress.addr host]. lia.
Defined.

(** X3. Networks nest: when a network contains the address of a more
    specific network, it contains every address that the more specific
    network contains. *)
Theorem matches_nested :
  forall wide narrow dest : IPAddress.t,
    IPAddress.valid wide -> IPAddress.valid narrow ->
    0 <= IPAddress.addr dest < 2 ^ 32 ->
    IPAddress.prefix wide <= IPAddress.prefix narrow ->
    IPAddress.matches wide narrow = Ok true ->
    IPAddress.matches narrow dest = Ok true ->
    IPAddress.matches wide dest = Ok true.
Proof.
  intros wide narrow dest Hw Hn Hd Hle Hwn Hnd.
  pose proof Hw as (Hpw & _). pose proof Hn as (Hpn & Han & _).
  apply matches_div in Hwn; [|exact Hw|exact Han].
  apply matches_div in Hnd; [|exact Hn|exact Hd].
  apply matches_div; [exact Hw|exact Hd|].
  rewrite <- Hwn.
  assert (Hsplit : forall x, 0 <= x ->
             x / 2 ^ (32 - IPAddress.prefix wide)
             = x / 2 ^ (32 - IPAddress.prefix narrow)
               / 2 ^ (IPAddress.prefix narrow - IPAddress.prefix wide)).
  { intros x Hx. rewrite Z.div_div by (try apply Z.pow_nonzero; try apply Z.pow_pos_nonneg; lia).
    rewrite <- Z.pow_add_r by lia. f_equal. f_equal. lia. }
  rewrite (Hsplit (IPAddress.addr dest)) by lia.
  rewrite (Hsplit (IPAddress.addr narrow)) by lia.
  rewrite Hnd. reflexivity.
Qed.

Lemma matches_nested_witness :
  IPAddress.matches (IPAddress.mk 167772160 8) (IPAddress.mk 167838211 32) = Ok true.
Proof.
  apply (matches_nested (IPAddress.mk 167772160 8) (IPAddress.mk 167837696 16)
                        (IPAddress.mk 167838211 32)).
  - ip_valid_literal.
  - ip_valid_literal.
  - cbn [IPAddress.addr]. lia.
  - cbn [IPAddress.prefix]. lia.
  - vm_compute. reflexivity.
  - vm_compute. reflexivity.
Defined.

(** ** Lenient parsing, equality and printing *)

Lemma c_str_app_plain (s t : string) :
  all_chars plain s = true -> Text.c_str (s ++ t) = (s ++ Text.c_str t)%string.
Proof.
  induction s as [|c s IH]; cbn [append all_chars Text.c_str]; [reflexivity|].
  rewrite andb_true_iff. unfold plain at 1. rewrite !andb_true_iff, !negb_true_iff.
  intros [[[Hz _] _] Hs]. rewrite Hz, IH by exact Hs. reflexivity.
Qed.

Lemma stops_number_c_str (t : string) : stops_number t -> stops_number (Text.c_str t).
Proof.
  destruct t as [|c t]; cbn [Text.c_str stops_number]; [trivial|].
  intros H. destruct (Ascii.eqb c zero); [exact I | exact H].
Qed.

Lemma ipToUint_quad_text_suffix (a b c d : Z) (suffix : string) :
  Int.in_int a = true -> Int.in_int b = true -> Int.in_int c = true -> Int.in_int d = true ->
  stops_number suffix ->
  ipToUint (quad_text a b c d suffix) = Ok (quad_value a b c d).
Proof.
  intros Ha Hb Hc Hd Hs. unfold ipToUint.
  rewrite (quad_text_suffix a b c d suffix).
  rewrite c_str_app_plain by apply quad_text_plain.
  rewrite <- quad_text_suffix.
  rewrite sscanf_quad_text by (assumption || (apply stops_number_c_str; exact Hs)).
  reflexivity.
Qed.

(** X4. [ipToUint] looks at nothing behind the fourth number: a dotted quad
    of octets followed by any text that does not go on with a digit is read
    as the dotted quad alone (so 1.2.3.4.5 and 1.2.3.4xyz are 1.2.3.4). *)
Theorem ipToUint_ignores_rest :
  forall (a b c d : Z) (rest : string),
    0 <= a <= 255 -> 0 <= b <= 255 -> 0 <= c <= 255 -> 0 <= d <= 255 ->
    stops_number rest ->
    ipToUint (quad_text a b c d rest) = Ok (a * 2 ^ 24 + b * 2 ^ 16 + c * 2 ^ 8 + d) /\
    ipToUint (quad_text a b c d rest) = ipToUint (quad_text a b c d "").
Proof.
  intros a b c d rest Ha Hb Hc Hd Hs.
  rewrite !ipToUint_quad_text_suffix by (try (apply in_int_small; lia); assumption || exact I).
  rewrite quad_value_octets by assumption. split; reflexivity.
Qed.

Lemma ipToUint_ignores_rest_witness :
  ipToUint "1.2.3.4.5" = Ok (1 * 2 ^ 24 + 2 * 2 ^ 16 + 3 * 2 ^ 8 + 4) /\
  ipToUint "1.2.3.4.5" = ipToUint "1.2.3.4".
Proof.
  apply (ipToUint_ignores_rest 1 2 3 4 ".5"); try lia. reflexivity.
Defined.

(** The constructor on [a.b.c.d/rest]. *)
Lemma make_quad_slash_any (order : site -> eval_order) (a b c d : Z) (rest : string) :
  IPAddress.make order (quad_text a b c d ("/" ++ rest)) =
  (prefix <- stoi rest ;;
   ' (v, m) <- both (order site_addr_and_mask)
                    (ipToUint (quad_text a b c d "")) (maskFromPrefix prefix) ;;
   ret (IPAddress.mk (Z.land v m) prefix))%result.
Proof.
  unfold IPAddress.make.
  rewrite (quad_text_suffix a b c d ("/" ++ rest)).
  change ("/" ++ rest)%string with (String "/"%char rest).
  rewrite TextFacts.find_slash_plain by apply quad_text_plain.
  unfold Text.substr.
  rewrite drop_past_char. change (Text.drop 0 ?x) with x.
  rewrite TextFacts.take_app. reflexivity.
Qed.

Lemma stoi_decimal_rest (n : Z) (rest : string) :
  Int.in_int n = true -> stops_number rest -> stoi (Text.decimal n ++ rest) = Ok n.
Proof.
  intros Hn Hs. unfold stoi.
  rewrite c_str_app_plain by apply TextFacts.plain_decimal.
  rewrite TextFacts.scan_decimal_decimal by (apply stops_number_c_str; exact Hs).
  rewrite Hn. reflexivity.
Qed.

(** X5. The constructor splits at the first slash and [std::stoi] stops at
    the first character that is no digit: whatever follows the prefix
    number is ignored (10.0.0.0/8/24 and 10.0.0.0/8x are 10.0.0.0/8). *)
Theorem make_ignores_after_prefix :
  forall (order : site -> eval_order) (a b c d n : Z) (rest : string),
    0 <= a <= 255 -> 0 <= b <= 255 -> 0 <= c <= 255 -> 0 <= d <= 255 ->
    0 <= n <= 32 -> stops_number rest ->
    IPAddress.make order (quad_text a b c d ("/" ++ Text.decimal n ++ rest))
    = IPAddress.make order (quad_text a b c d ("/" ++ Text.decimal n)) /\
    IPAddress.make order (quad_text a b c d ("/" ++ Text.decimal n ++ rest))
    = Ok (IPAddress.mk (Z.land (a * 2 ^ 24 + b * 2 ^ 16 + c * 2 ^ 8 + d)
                               (2 ^ 32 - 2 ^ (32 - n))) n).
Proof.
  intros order a b c d n rest Ha Hb Hc Hd Hn Hs.
  assert (E : IPAddress.make order (quad_text a b c d ("/" ++ Text.decimal n ++ rest))
              = Ok (IPAddress.mk (Z.land (a * 2 ^ 24 + b * 2 ^ 16 + c * 2 ^ 8 + d)
                                         (2 ^ 32 - 2 ^ (32 - n))) n)).
  { rewrite make_quad_slash_any.
    rewrite stoi_decimal_rest by (try (apply in_int_small; lia); exact Hs). cbn [bind].
    rewrite ipToUint_quad_text, maskFromPrefix_value, both_ok_ok
      by (try (apply in_int_small; lia); exact Hn).
    rewrite quad_value_octets by assumption. reflexivity. }
  split; [|exact E]. rewrite E.
  rewrite make_quad_slash_ok by (try (apply in_int_small; lia); exact Hn).
  rewrite quad_value_octets by assumption. reflexivity.
Qed.

Lemma make_ignores_after_prefix_witness :
  IPAddress.make (fun _ => left_first) (quad_text 10 0 0 0 ("/" ++ Text.decimal 8 ++ "/24"))
  = IPAddress.make (fun _ => left_first) (quad_text 10 0 0 0 ("/" ++ Text.decimal 8)) /\
  IPAddress.make (fun _ => left_first) (quad_text 10 0 0 0 ("/" ++ Text.decimal 8 ++ "/24"))
  = Ok (IPAddress.mk (Z.land (10 * 2 ^ 24 + 0 * 2 ^ 16 + 0 * 2 ^ 8 + 0)
                             (2 ^ 32 - 2 ^ (32 - 8))) 8).
Proof.
  apply (make_ignores_after_prefix (fun _ => left_first) 10 0 0 0 8 "/24"); try lia.
  reflexivity.
Defined.

Lemma toString_injective (a b : IPAddress.t) :
  IPAddress.valid a -> IPAddress.valid b ->
  IPAddress.toString a = IPAddress.toString b -> a = b.
Proof.
  intros Ha Hb E.
  pose proof (make_toString (fun _ => left_first) a Ha) as Ma.
  pose proof (make_toString (fun _ => left_first) b Hb) as Mb.
  rewrite E in Ma. congruence.
Qed.

(** X6. On addresses built by the constructor, [operator==] holds exactly
    when the printed forms are equal; so equal addresses have equal hashes,
    and two addresses can only collide through [std::hash<string>]. *)
Theorem equal_iff_same_text :
  forall (hash_string : string -> Z) (a b : IPAddress.t),
    IPAddress.valid a -> IPAddress.valid b ->
    (IPAddress.eqb a b = true <-> IPAddress.toString a = IPAddress.toString b) /\
    (IPAddress.eqb a b = true -> hash_IPAddress hash_string a = hash_IPAddress hash_string b) /\
    (IPAddress.eqb a b = false -> IPAddress.toString a <> IPAddress.toString b).
Proof.
  intros hash_string a b Ha Hb.
  assert (Hiff : IPAddress.eqb a b = true <-> IPAddress.toString a = IPAddress.toString b).
  { rewrite IPAddress_eqb_eq. split; [intros ->; reflexivity|].
    apply toString_injective; assumption. }
  split; [exact Hiff|]. split.
  - intros H. unfold hash_IPAddress. apply Hiff in H. rewrite H. reflexivity.
  - intros H E. apply Hiff in E. congruence.
Qed.

Lemma equal_iff_same_text_witness :
  IPAddress.toString (IPAddress.mk 167772160 8) <> IPAddress.toString (IPAddress.mk 167772160 24).
Proof.
  apply (proj2 (proj2 (equal_iff_same_text (fun _ => 0) (IPAddress.mk 167772160 8)
                                           (IPAddress.mk 167772160 24)
                                           ltac:(ip_valid_literal) ltac:(ip_valid_literal)))).
  reflexivity.
Defined.

(** ** Adding, removing and looking up *)




Lemma removeRoute_no_match (routes : RoutingTable.t) (network : IPAddress.t) :
  (forall r, In r routes -> Route.getNetwork r <> network) ->
  RoutingTable.removeRoute routes network
  = (routes, ("Nie znaleziono podanej trasy." ++ Text.nl)%string).
Proof.
  intros Hnone. rewrite removeRoute_filter.
  assert (Hall : forall r, In r routes -> IPAddress.eqb (Route.network r) network = false).
  { intros r Hr. destruct (IPAddress.eqb (Route.network r) network) eqn:E; [|reflexivity].
    apply IPAddress_eqb_eq in E. exfalso. apply (Hnone r Hr). exact E. }
  clear Hnone.
  assert (Ef : filter (fun r => negb (IPAddress.eqb (Route.network r) network)) routes
               = routes).
  { induction routes as [|x routes IH]; [reflexivity|].
    cbn [filter]. rewrite (Hall x) by (left; reflexivity). cbn [negb].
    f_equal. apply IH. intros r Hr. apply Hall. right. exact Hr. }
  assert (Ee : existsb (fun r => IPAddress.eqb (Route.network r) network) routes = false).
  { clear Ef. induction routes as [|x routes IH]; [reflexivity|].
    cbn [existsb]. rewrite (Hall x) by (left; reflexivity). cbn [orb].
    apply IH. intros r Hr. apply Hall. right. exact Hr. }
  rewrite Ef, Ee. reflexivity.
Qed.

(** X8. [removeRoute] is idempotent: after it no entry has the given
    network, a second call removes nothing and says so; removing the
    network of an entry just added always reports a removal and gives the
    table that removing it before the addition gives. *)
Theorem removeRoute_twice_and_after_add :
  (forall (routes : RoutingTable.t) (network : IPAddress.t),
      let routes' := fst (RoutingTable.removeRoute routes network) in
      (forall r, In r routes' -> Route.getNetwork r <> network) /\
      (List.length routes' <= List.length routes)%nat /\
      RoutingTable.removeRoute routes' network
      = (routes', ("Nie znaleziono podanej trasy." ++ Text.nl)%string)) /\
  (forall (routes : RoutingTable.t) (r : Route.t),
      RoutingTable.removeRoute (RoutingTable.addRoute routes r) (Route.getNetwork r)
      = (fst (RoutingTable.removeRoute routes (Route.getNetwork r)),
         ("Trasa została usunięta." ++ Text.nl)%string)).
Proof.
  split.
  - intros routes network routes'.
    assert (Hnone : forall r, In r routes' -> Route.getNetwork r <> network).
    { intros r Hr E. unfold routes' in Hr. rewrite removeRoute_filter in Hr. cbn [fst] in Hr.
      apply filter_In in Hr. destruct Hr as [_ Hr]. apply negb_true_iff in Hr.
      apply IPAddress_eqb_eq in E. unfold Route.getNetwork in E. congruence. }
    split; [exact Hnone|]. split.
    + unfold routes'. rewrite removeRoute_filter. cbn [fst]. apply filter_length_le.
    + apply removeRoute_no_match. exact Hnone.
  - intros routes r. rewrite !removeRoute_filter. cbn [fst].
    unfold RoutingTable.addRoute, Route.getNetwork.
    rewrite filter_app, existsb_app. cbn [filter existsb].
    assert (E : IPAddress.eqb (Route.network r) (Route.network r) = true)
      by (apply IPAddress_eqb_eq; reflexivity).
    rewrite E. cbn [negb orb]. rewrite app_nil_r, orb_true_r. reflexivity.
Qed.

Lemma findRoute_loop_filter (dest network : IPAddress.t) (routes : RoutingTable.t) :
  IPAddress.matches network dest = Ok false ->
  forall best,
    RoutingTable.findRoute_loop dest best
      (filter (fun r => negb (IPAddress.eqb (Route.network r) network)) routes)
    = RoutingTable.findRoute_loop dest best routes.
Proof.
  intros Hno. induction routes as [|r routes IH]; intros best; [reflexivity|].
  cbn [filter]. destruct (IPAddress.eqb (Route.network r) network) eqn:E; cbn [negb].
  - apply IPAddress_eqb_eq in E.
    cbn [RoutingTable.findRoute_loop]. unfold RoutingTable.findRoute_step, Route.matches.
    rewrite E, Hno. cbn [bind ret]. apply IH.
  - cbn [RoutingTable.findRoute_loop].
    destruct (RoutingTable.findRoute_step dest best r) as [b|e]; cbn [bind];
      [apply IH | reflexivity].
Qed.

Lemma findRoute_result (routes : RoutingTable.t) (dest : IPAddress.t) (E : Route.t) :
  RoutingTable.valid routes ->
  RoutingTable.findRoute routes dest = Ok (Some E) ->
  In E routes /\ Route.matches E dest = Ok true /\
  forall r, In r routes -> Route.matches r dest = Ok true ->
            IPAddress.prefix (Route.network r) <= IPAddress.prefix (Route.network E).
Proof.
  intros Hv Hf. destruct (findRoute_scanned routes dest Hv) as (res & Hres & Hs).
  rewrite Hf in Hres. injection Hres as <-.
  destruct Hs as (before & after & Hsplit & HE & Hlt & Hle). subst routes.
  split; [apply in_elt|]. split; [exact HE|].
  intros r Hr Hm. apply in_app_or in Hr. destruct Hr as [Hr|[Hr|Hr]].
  - specialize (Hlt r Hr Hm). lia.
  - subst r. lia.
  - apply Hle; assumption.
Qed.

Lemma findRoute_none (routes : RoutingTable.t) (dest : IPAddress.t) :
  RoutingTable.valid routes ->
  RoutingTable.findRoute routes dest = Ok None ->
  forall r, In r routes -> Route.matches r dest = Ok false.
Proof.
  intros Hv Hf. destruct (findRoute_scanned routes dest Hv) as (res & Hres & Hs).
  rewrite Hf in Hres. injection Hres as <-. exact Hs.
Qed.

(** X9. After [removeRoute] no lookup returns an entry of the removed
    network, and the lookup of a destination that the removed network does
    not contain gives what it gave before. *)
Theorem findRoute_after_removeRoute :
  (forall (routes : RoutingTable.t) (network dest : IPAddress.t) (E : Route.t),
      RoutingTable.valid routes ->
      RoutingTable.findRoute (fst (RoutingTable.removeRoute routes network)) dest = Ok (Some E) ->
      In E routes /\ Route.getNetwork E <> network) /\
  (forall (routes : RoutingTable.t) (network dest : IPAddress.t),
      IPAddress.matches network dest = Ok false ->
      RoutingTable.findRoute (fst (RoutingTable.removeRoute routes network)) dest
      = RoutingTable.findRoute routes dest).
Proof.
  split.
  - intros routes network dest E Hv Hf.
    pose proof (removeRoute_valid routes network Hv) as Hv'.
    destruct (findRoute_result _ _ _ Hv' Hf) as (Hin & _).
    rewrite removeRoute_filter in Hin. cbn [fst] in Hin.
    apply filter_In in Hin. destruct Hin as [Hin Hne]. split; [exact Hin|].
    intros Heq. apply negb_true_iff in Hne. apply IPAddress_eqb_eq in Heq.
    unfold Route.getNetwork in Heq. congruence.
  - intros routes network dest Hno. rewrite removeRoute_filter. cbn [fst].
    apply findRoute_loop_filter. exact Hno.
Qed.

Lemma findRoute_after_removeRoute_witness :
  let r8 := Route.mk (IPAddress.mk 167772160 8) (IPAddress.mk 16843009 32) 5 in
  let r16 := Route.mk (IPAddress.mk 167837696 16) (IPAddress.mk 33686018 32) 1 in
  (In r8 [r8; r16] /\ Route.getNetwork r8 <> IPAddress.mk 167837696 16) /\
  RoutingTable.findRoute (fst (RoutingTable.removeRoute [r8; r16] (IPAddress.mk 167837696 16)))
                         (IPAddress.mk 167903232 32)
  = RoutingTable.findRoute [r8; r16] (IPAddress.mk 167903232 32).
Proof.
  intros r8 r16.
  destruct findRoute_after_removeRoute as (Hgone & Hframe).
  split.
  - apply (Hgone [r8; r16] (IPAddress.mk 167837696 16) (IPAddress.mk 167838211 32) r8).
    + unfold r8, r16. valid_literal.
    + vm_compute. reflexivity.
  - apply Hframe. vm_compute. reflexivity.
Defined.

(** X10. How specific the chosen route is does not depend on the order of
    insertion: two tables with the same entries in different orders give
    results of the same prefix length (and both give none, or neither). *)
Theorem findRoute_prefix_order_independent :
  forall (routes1 routes2 : RoutingTable.t) (dest : IPAddress.t)
         (found1 found2 : option Route.t),
    RoutingTable.valid routes1 ->
    Permutation routes1 routes2 ->
    RoutingTable.findRoute routes1 dest = Ok found1 ->
    RoutingTable.findRoute routes2 dest = Ok found2 ->
    option_map (fun r => IPAddress.getPrefix (Route.getNetwork r)) found1
    = option_map (fun r => IPAddress.getPrefix (Route.getNetwork r)) found2.
Proof.
  intros routes1 routes2 dest found1 found2 Hv1 Hp H1 H2.
  assert (Hv2 : RoutingTable.valid routes2) by (apply (Permutation_Forall Hp); exact Hv1).
  unfold IPAddress.getPrefix, Route.getNetwork.
  destruct found1 as [E1|], found2 as [E2|]; cbn [option_map].
  - destruct (findRoute_result _ _ _ Hv1 H1) as (In1 & M1 & Max1).
    destruct (findRoute_result _ _ _ Hv2 H2) as (In2 & M2 & Max2).
    assert (L1 := Max1 E2 (Permutation_in _ (Permutation_sym Hp) In2) M2).
    assert (L2 := Max2 E1 (Permutation_in _ Hp In1) M1).
    f_equal. lia.
  - destruct (findRoute_result _ _ _ Hv1 H1) as (In1 & M1 & _).
    pose proof (findRoute_none _ _ Hv2 H2 E1 (Permutation_in _ Hp In1)) as N.
    rewrite M1 in N. discriminate N.
  - destruct (findRoute_result _ _ _ Hv2 H2) as (In2 & M2 & _).
    pose proof (findRoute_none _ _ Hv1 H1 E2 (Permutation_in _ (Permutation_sym Hp) In2)) as N.
    rewrite M2 in N. discriminate N.
  - reflexivity.
Qed.

Lemma findRoute_prefix_order_independent_witness :
  let r8 := Route.mk (IPAddress.mk 167772160 8) (IPAddress.mk 16843009 32) 5 in
  let r16 := Route.mk (IPAddress.mk 167837696 16) (IPAddress.mk 33686018 32) 1 in
  option_map (fun r => IPAddress.getPrefix (Route.getNetwork r)) (Some r16)
  = option_map (fun r => IPAddress.getPrefix (Route.getNetwork r)) (Some r16).
Proof.
  intros r8 r16.
  apply (findRoute_prefix_order_independent [r8; r16] [r16; r8] (IPAddress.mk 167838211 32)).
  - unfold r8, r16. valid_literal.
  - apply perm_swap.
  - vm_compute. reflexivity.
  - vm_compute. reflexivity.
Defined.

(** X11. A default route keeps every packet: when the table holds an entry
    of prefix 0, [findRoute] finds an entry for every destination; and an
    entry of prefix 32 for the destination itself is what it finds, up to
    entries of the same network. *)
Theorem findRoute_default_and_host_route :
  forall (routes : RoutingTable.t) (r : Route.t) (dest : IPAddress.t),
    RoutingTable.valid routes -> In r routes ->
    0 <= IPAddress.addr dest < 2 ^ 32 ->
    (IPAddress.getPrefix (Route.getNetwork r) = 0 ->
     exists E, RoutingTable.findRoute routes dest = Ok (Some E)) /\
    (IPAddress.getPrefix (Route.getNetwork r) = 32 ->
     IPAddress.addr (Route.getNetwork r) = IPAddress.addr dest ->
     exists E, RoutingTable.findRoute routes dest = Ok (Some E) /\
               Route.getNetwork E = Route.getNetwork r).
Proof.
  intros routes r dest Hv Hin Hd.
  assert (Hr : Route.valid r) by (unfold RoutingTable.valid in Hv;
                                  rewrite Forall_forall in Hv; apply Hv; exact Hin).
  destruct (findRoute_scanned routes dest Hv) as (res & Hres & Hs).
  unfold IPAddress.getPrefix, Route.getNetwork. split.
  - intros H0.
    assert (Hm : Route.matches r dest = Ok true).
    { unfold Route.matches. apply matches_div; [apply Hr | exact Hd|]. rewrite H0.
      destruct Hr as ((_ & Ha & _) & _). change (2 ^ (32 - 0)) with (2 ^ 32).
      rewrite !Z.div_small by assumption. reflexivity. }
    destruct res as [E|]; [exists E; exact Hres|].
    cbn [scanned] in Hs. rewrite (Hs r Hin) in Hm. discriminate Hm.
  - intros H32 Haddr.
    assert (Hm : Route.matches r dest = Ok true).
    { unfold Route.matches. apply matches_div; [apply Hr | exact Hd|]. rewrite H32.
      change (2 ^ (32 - 32)) with 1. rewrite !Z.div_1_r. symmetry. exact Haddr. }
    destruct res as [E|]; [|cbn [scanned] in Hs; rewrite (Hs r Hin) in Hm; discriminate Hm].
    exists E. split; [exact Hres|].
    destruct (findRoute_result _ _ _ Hv Hres) as (HinE & HmE & Hmax).
    specialize (Hmax r Hin Hm). rewrite H32 in Hmax.
    assert (HvE : Route.valid E) by (unfold RoutingTable.valid in Hv;
                                     rewrite Forall_forall in Hv; apply Hv; exact HinE).
    pose proof HvE as ((HpE & _) & _).
    assert (HpE32 : IPAddress.prefix (Route.network E) = 32) by lia.
    unfold Route.matches in HmE.
    apply matches_div in HmE; [|apply HvE|exact Hd].
    rewrite HpE32 in HmE. change (2 ^ (32 - 32)) with 1 in HmE. rewrite !Z.div_1_r in HmE.
    destruct (Route.network E) as [aE pE], (Route.network r) as [ar pr].
    cbn [IPAddress.addr IPAddress.prefix] in *. congruence.
Qed.

Lemma findRoute_default_and_host_route_witness :
  let dflt := Route.mk (IPAddress.mk 0 0) (IPAddress.mk 16843009 32) 5 in
  let host := Route.mk (IPAddress.mk 167838211 32) (IPAddress.mk 33686018 32) 1 in
  (exists E, RoutingTable.findRoute [dflt; host] (IPAddress.mk 3221225472 32) = Ok (Some E)) /\
  (exists E, RoutingTable.findRoute [dflt; host] (IPAddress.mk 167838211 32) = Ok (Some E) /\
             Route.getNetwork E = Route.getNetwork host).
Proof.
  intros dflt host.
  assert (Hv : RoutingTable.valid [dflt; host]) by (unfold dflt, host; valid_literal).
  split.
  - apply (proj1 (findRoute_default_and_host_route [dflt; host] dflt
                    (IPAddress.mk 3221225472 32) Hv (or_introl eq_refl)
                    ltac:(cbn [IPAddress.addr]; lia))).
    reflexivity.
  - apply (proj2 (findRoute_default_and_host_route [dflt; host] host
                    (IPAddress.mk 167838211 32) Hv (or_intror (or_introl eq_refl))
                    ltac:(cbn [IPAddress.addr]; lia))); reflexivity.
Defined.

(** ** Commands and the loop *)

Lemma extends_refl (s : string) : extends s s.
Proof. exists EmptyString. symmetry. apply TextFacts.append_nil_r. Qed.

Lemma extends_app (s t : string) : extends s (s ++ t).
Proof. exists t. reflexivity. Qed.

Lemma extends_trans (a b c : string) : extends a b -> extends b c -> extends a c.
Proof.
  intros [m1 ->] [m2 ->]. exists (m1 ++ m2)%string. apply TextFacts.append_assoc.
Qed.

(** X12. [handleDelete] with a parseable network writes a DEL record to
    the log whether or not a route was removed; the table keeps the entries
    of other networks in their order, and [cout] tells which of the two
    happened. *)
Theorem handleDelete_effect :
  forall (order : site -> eval_order) (ss : string) (st : RouterCLI.t)
         (net rest : string) (n : IPAddress.t),
    RouterCLI.extract_string ss = Some (net, rest) ->
    IPAddress.make order net = Ok n ->
    exists st',
      RouterCLI.handleDelete order ss st = (st', Ok tt) /\
      RouterCLI.table st'
      = filter (fun r => negb (IPAddress.eqb (Route.getNetwork r) n)) (RouterCLI.table st) /\
      RouterCLI.log st' = (RouterCLI.log st ++ "DEL " ++ net ++ Text.nl)%string /\
      RouterCLI.cout st'
      = (RouterCLI.cout st ++
         if existsb (fun r => IPAddress.eqb (Route.getNetwork r) n) (RouterCLI.table st)
         then "Trasa została usunięta." ++ Text.nl
         else "Nie znaleziono podanej trasy." ++ Text.nl)%string.
Proof.
  intros order ss st net rest n Hargs Hn.
  eexists. split; [apply (handleDelete_ok order ss st net rest n); assumption|].
  cbn [RouterCLI.table RouterCLI.log RouterCLI.cout].
  rewrite removeRoute_filter. cbn [fst snd]. repeat split.
Qed.

Lemma handleDelete_effect_witness :
  let r := Route.mk (IPAddress.mk 167772160 8) (IPAddress.mk 16843009 32) 5 in
  let st := RouterCLI.mk [r] "" "" in
  exists st',
    RouterCLI.handleDelete (fun _ => left_first) " 10.0.0.0/24" st = (st', Ok tt) /\
    RouterCLI.table st'
    = filter (fun x => negb (IPAddress.eqb (Route.getNetwork x) (IPAddress.mk 167772160 24))) [r] /\
    RouterCLI.log st' = ("" ++ "DEL " ++ "10.0.0.0/24" ++ Text.nl)%string /\
    RouterCLI.cout st'
    = ("" ++
       if existsb (fun x => IPAddress.eqb (Route.getNetwork x) (IPAddress.mk 167772160 24)) [r]
       then "Trasa została usunięta." ++ Text.nl
       else "Nie znaleziono podanej trasy." ++ Text.nl)%string.
Proof.
  intros r st.
  apply (handleDelete_effect (fun _ => left_first) " 10.0.0.0/24" st "10.0.0.0/24" ""
                             (IPAddress.mk 167772160 24)).
  - vm_compute. reflexivity.
  - vm_compute. reflexivity.
Defined.

Lemma handleAdd_streams (order : site -> eval_order) (ss : string) (st st' : RouterCLI.t)
      (r : result unit) :
  RouterCLI.handleAdd order ss st = (st', r) ->
  (RouterCLI.table st' = RouterCLI.table st \/
   exists x, Route.valid x /\ RouterCLI.table st' = RouterCLI.table st ++ [x]) /\
  extends (RouterCLI.log st) (RouterCLI.log st') /\
  extends (RouterCLI.cout st) (RouterCLI.cout st').
Proof.
  unfold RouterCLI.handleAdd.
  destruct (RouterCLI.read_add_args ss) as [[[net gw] m]|] eqn:Hargs.
  - destruct (both (order site_route_args) (IPAddress.make order net) (IPAddress.make order gw))
      as [[n g]|e] eqn:E; intros H; split_result H.
    + apply both_ok in E. destruct E as [Hn Hg].
      cbn [RouterCLI.table RouterCLI.log RouterCLI.cout RouterCLI.write_log
           RouterCLI.write_cout RouterCLI.set_table].
      split; [|split; apply extends_app].
      right. exists (Route.mk n g m). split; [|reflexivity].
      repeat split; cbn [Route.network Route.gateway Route.metric];
        try (eapply make_valid; eassumption).
      eapply read_add_args_range; eassumption.
    + split; [left; reflexivity|]. split; apply extends_refl.
  - intros H; split_result H.
    cbn [RouterCLI.table RouterCLI.log RouterCLI.cout RouterCLI.write_cout].
    split; [left; reflexivity|]. split; [apply extends_refl | apply extends_app].
Qed.

Lemma handleDelete_streams (order : site -> eval_order) (ss : string) (st st' : RouterCLI.t)
      (r : result unit) :
  RouterCLI.handleDelete order ss st = (st', r) ->
  (exists keep, RouterCLI.table st' = filter keep (RouterCLI.table st)) /\
  extends (RouterCLI.log st) (RouterCLI.log st') /\
  extends (RouterCLI.cout st) (RouterCLI.cout st').
Proof.
  assert (Hsame : exists keep : Route.t -> bool,
             RouterCLI.table st = filter keep (RouterCLI.table st)).
  { exists (fun _ => true). symmetry. apply filter_full.
    induction (RouterCLI.table st) as [|x l IH]; cbn [filter List.length]; congruence. }
  unfold RouterCLI.handleDelete.
  destruct (RouterCLI.extract_string ss) as [[net rest]|].
  - destruct (IPAddress.make order net) as [n|e].
    + pose proof (removeRoute_filter (RouterCLI.table st) n) as Hf.
      destruct (RoutingTable.removeRoute (RouterCLI.table st) n) as [routes said].
      intros H; split_result H.
      cbn [RouterCLI.table RouterCLI.log RouterCLI.cout RouterCLI.write_log
           RouterCLI.write_cout RouterCLI.set_table].
      split; [|split; apply extends_app].
      eexists. exact (f_equal fst Hf).
    + intros H; split_result H. split; [exact Hsame|]. split; apply extends_refl.
  - intros H; split_result H.
    cbn [RouterCLI.table RouterCLI.log RouterCLI.cout RouterCLI.write_cout].
    split; [exact Hsame|]. split; [apply extends_refl | apply extends_app].
Qed.

Lemma handleSend_streams (order : site -> eval_order) (ss : string) (st st' : RouterCLI.t)
      (r : result unit) :
  RouterCLI.handleSend order ss st = (st', r) ->
  RouterCLI.table st' = RouterCLI.table st /\
  extends (RouterCLI.log st) (RouterCLI.log st') /\
  extends (RouterCLI.cout st) (RouterCLI.cout st').
Proof.
  intros H. split; [apply (handleSend_table _ _ _ _ _ H)|]. revert H.
  unfold RouterCLI.handleSend.
  destruct (RouterCLI.read_send_args ss) as [[[src dst] proto]|].
  - destruct (both (order site_packet_args) (IPAddress.make order src) (IPAddress.make order dst))
      as [[s d]|e].
    + cbn [RouterCLI.write_cout RouterCLI.table Packet.getDestination Packet.destination].
      destruct (RoutingTable.findRoute (RouterCLI.table st) d) as [[x|]|e];
        intros H; split_result H;
        cbn [RouterCLI.table RouterCLI.log RouterCLI.cout RouterCLI.write_log
             RouterCLI.write_cout];
        split; try apply extends_app; try apply extends_refl;
        (eapply extends_trans; [apply extends_app | apply extends_app]).
    + intros H; split_result H. split; apply extends_refl.
  - intros H; split_result H.
    cbn [RouterCLI.table RouterCLI.log RouterCLI.cout RouterCLI.write_cout].
    split; [apply extends_refl | apply extends_app].
Qed.

Lemma handle_effects (order : site -> eval_order) (c : command) (ss : string)
      (st st' : RouterCLI.t) (r : result unit) :
  handle order c ss st = (st', r) ->
  match c with
  | cmd_add =>
      RouterCLI.table st' = RouterCLI.table st \/
      exists x, Route.valid x /\ RouterCLI.table st' = RouterCLI.table st ++ [x]
  | cmd_del => exists keep, RouterCLI.table st' = filter keep (RouterCLI.table st)
  | cmd_send => RouterCLI.table st' = RouterCLI.table st
  end /\
  extends (RouterCLI.log st) (RouterCLI.log st') /\
  extends (RouterCLI.cout st) (RouterCLI.cout st').
Proof.
  intros H. destruct c; cbn [handle] in H.
  - apply (handleAdd_streams _ _ _ _ _ H).
  - apply (handleDelete_streams _ _ _ _ _ H).
  - apply (handleSend_streams _ _ _ _ _ H).
Qed.

(** X13. What a handler can do to the router: [handleAdd] leaves the table
    or appends one valid route, [handleDelete] only takes entries away
    without reordering the rest, [handleSend] never changes the table; and
    all three only ever append to the log and to [cout]. *)
Theorem handler_effects :
  forall (order : site -> eval_order) (c : command) (ss : string)
         (st st' : RouterCLI.t) (r : result unit),
    handle order c ss st = (st', r) ->
    match c with
    | cmd_add =>
        RouterCLI.table st' = RouterCLI.table st \/
        exists x, Route.valid x /\ RouterCLI.table st' = RouterCLI.table st ++ [x]
    | cmd_del => exists keep, RouterCLI.table st' = filter keep (RouterCLI.table st)
    | cmd_send => RouterCLI.table st' = RouterCLI.table st
    end /\
    extends (RouterCLI.log st) (RouterCLI.log st') /\
    extends (RouterCLI.cout st) (RouterCLI.cout st').
Proof. exact handle_effects. Qed.

Lemma handler_effects_witness :
  let r := Route.mk (IPAddress.mk 167772160 8) (IPAddress.mk 16843009 32) 5 in
  let st := RouterCLI.mk [r] "" "" in
  (exists keep, RouterCLI.table (fst (handle (fun _ => left_first) cmd_del " 10.0.0.0/8" st))
                = filter keep (RouterCLI.table st)) /\
  extends (RouterCLI.log st)
          (RouterCLI.log (fst (handle (fun _ => left_first) cmd_del " 10.0.0.0/8" st))) /\
  extends (RouterCLI.cout st)
          (RouterCLI.cout (fst (handle (fun _ => left_first) cmd_del " 10.0.0.0/8" st))).
Proof.
  intros r st.
  apply (handler_effects (fun _ => left_first) cmd_del " 10.0.0.0/8" st _
                         (snd (handle (fun _ => left_first) cmd_del " 10.0.0.0/8" st))).
  apply surjective_pairing.
Defined.

Lemma scan_decimal_not_number (c : ascii) (s : string) :
  Text.isdigit c = false -> Text.isspace c = false ->
  c <> "-"%char -> c <> "+"%char ->
  Text.scan_decimal (String c s) = None.
Proof.
  destruct c as [[] [] [] [] [] [] [] []]; intros Hd Hs Hm Hp;
    solve [ reflexivity | discriminate Hd | discriminate Hs
          | exfalso; apply Hm; reflexivity | exfalso; apply Hp; reflexivity ].
Qed.

Lemma extract_string_last (w : string) :
  w <> EmptyString -> all_chars no_space w = true ->
  RouterCLI.extract_string (String " "%char w) = Some (w, EmptyString).
Proof.
  intros Hne Hw. rewrite TextFacts.extract_string_skip.
  rewrite <- (TextFacts.append_nil_r w) at 1.
  apply TextFacts.extract_string_word; [exact Hne | exact Hw | exact I].
Qed.

Lemma extract_string_next (w rest : string) :
  w <> EmptyString -> all_chars no_space w = true ->
  RouterCLI.extract_string (String " "%char (w ++ String " "%char rest))
  = Some (w, String " "%char rest).
Proof.
  intros Hne Hw. rewrite TextFacts.extract_string_skip.
  apply TextFacts.extract_string_word; [exact Hne | exact Hw | reflexivity].
Qed.

(** X14. An [add] line that lacks an argument, or whose third word does not
    begin a number, only prints the usage text: nothing is thrown, the
    table and the log stay as they are, and the first two words are not
    even looked at as addresses. *)
Theorem handleAdd_usage :
  forall (order : site -> eval_order) (st : RouterCLI.t) (w1 w2 w3 : string) (c : ascii),
    w1 <> EmptyString -> all_chars no_space w1 = true ->
    w2 <> EmptyString -> all_chars no_space w2 = true ->
    Text.isdigit c = false -> Text.isspace c = false -> c <> "-"%char -> c <> "+"%char ->
    let usage := RouterCLI.write_cout st ("Użycie: add <sieć> <brama> <metryka>" ++ Text.nl) in
    RouterCLI.handleAdd order "" st = (usage, Ok tt) /\
    RouterCLI.handleAdd order (" " ++ w1) st = (usage, Ok tt) /\
    RouterCLI.handleAdd order (" " ++ w1 ++ " " ++ w2) st = (usage, Ok tt) /\
    RouterCLI.handleAdd order (" " ++ w1 ++ " " ++ w2 ++ " " ++ String c w3) st = (usage, Ok tt) /\
    RouterCLI.table usage = RouterCLI.table st /\ RouterCLI.log usage = RouterCLI.log st.
Proof.
  intros order st w1 w2 w3 c H1 S1 H2 S2 Hd Hs Hm Hp usage.
  assert (Hnone : forall ss, RouterCLI.read_add_args ss = None ->
                             RouterCLI.handleAdd order ss st = (usage, Ok tt)).
  { intros ss E. unfold RouterCLI.handleAdd. rewrite E. reflexivity. }
  split; [apply Hnone; reflexivity|].
  split; [apply Hnone|]. 2: split; [apply Hnone|]. 3: split; [apply Hnone|split; reflexivity].
  - unfold RouterCLI.read_add_args. cbn [append].
    rewrite extract_string_last by assumption. reflexivity.
  - unfold RouterCLI.read_add_args. cbn [append].
    rewrite extract_string_next, extract_string_last by assumption. reflexivity.
  - unfold RouterCLI.read_add_args. cbn [append].
    rewrite extract_string_next by assumption.
    rewrite extract_string_next by assumption.
    unfold RouterCLI.extract_int.
    change (Text.scan_decimal (String " "%char (String c w3)))
      with (Text.scan_decimal (String c w3)).
    rewrite scan_decimal_not_number by assumption. reflexivity.
Qed.

Lemma handleAdd_usage_witness :
  let st := RouterCLI.mk [] "" "" in
  let usage := RouterCLI.write_cout st ("Użycie: add <sieć> <brama> <metryka>" ++ Text.nl) in
  RouterCLI.handleAdd (fun _ => left_first) "" st = (usage, Ok tt) /\
  RouterCLI.handleAdd (fun _ => left_first) (" " ++ "999.9") st = (usage, Ok tt) /\
  RouterCLI.handleAdd (fun _ => left_first) (" " ++ "999.9" ++ " " ++ "1.1.1.1/40") st
  = (usage, Ok tt) /\
  RouterCLI.handleAdd (fun _ => left_first)
                      (" " ++ "999.9" ++ " " ++ "1.1.1.1/40" ++ " " ++ String "x"%char "1") st
  = (usage, Ok tt) /\
  RouterCLI.table usage = RouterCLI.table st /\ RouterCLI.log usage = RouterCLI.log st.
Proof.
  intros st usage.
  apply (handleAdd_usage (fun _ => left_first) st "999.9" "1.1.1.1/40" "1" "x"%char);
    try reflexivity; discriminate.
Defined.

Lemma catch_streams (x : RouterCLI.t * result unit) :
  extends (RouterCLI.log (fst x)) (RouterCLI.log (RouterCLI.catch x)) /\
  extends (RouterCLI.cout (fst x)) (RouterCLI.cout (RouterCLI.catch x)).
Proof.
  destruct x as [st [u|e]]; cbn [RouterCLI.catch fst RouterCLI.write_cout RouterCLI.log
                                 RouterCLI.cout];
    split; try apply extends_refl; apply extends_app.
Qed.

(** A handler run under the [catch] of the loop. *)
Lemma handle_catch_effects (order : site -> eval_order) (c : command) (ss : string)
      (st : RouterCLI.t) :
  (List.length (RouterCLI.table (RouterCLI.catch (handle order c ss st)))
   <= S (List.length (RouterCLI.table st)))%nat /\
  extends (RouterCLI.log st) (RouterCLI.log (RouterCLI.catch (handle order c ss st))) /\
  extends (RouterCLI.cout st) (RouterCLI.cout (RouterCLI.catch (handle order c ss st))).
Proof.
  pose proof (handle_effects order c ss st _ _ (surjective_pairing (handle order c ss st)))
    as (Ht & Hl & Hc).
  destruct (catch_streams (handle order c ss st)) as [Cl Cc].
  split; [|split; eapply extends_trans; eassumption].
  rewrite catch_table.
  destruct c.
  - destruct Ht as [->|(x & _ & ->)]; [lia|]. rewrite length_app. cbn [List.length]. lia.
  - destruct Ht as [keep ->]. pose proof (filter_length_le keep (RouterCLI.table st)). lia.
  - rewrite Ht. lia.
Qed.

Lemma run_line_effects (order : site -> eval_order) (st st' : RouterCLI.t) (cmd : string)
      (go : bool) :
  RouterCLI.run_line order st cmd st' go ->
  (go = false <-> fst (RouterCLI.read_op cmd) = "exit") /\
  (~ In (fst (RouterCLI.read_op cmd)) ["add"; "del"; "send"] ->
   RouterCLI.table st' = RouterCLI.table st /\ RouterCLI.log st' = RouterCLI.log st) /\
  (List.length (RouterCLI.table st') <= S (List.length (RouterCLI.table st)))%nat /\
  extends (RouterCLI.log st) (RouterCLI.log st') /\
  extends (RouterCLI.cout st) (RouterCLI.cout st').
Proof.
  intros H.
  destruct H as [r Hop|r Hop|r text Hop Hp|r Hop|r Hop|r Hop|op r Hop Hnot];
    rewrite Hop; cbn [fst].
  - split; [split; intros E; discriminate E|].
    split; [intros N; exfalso; apply N; left; reflexivity|].
    apply (handle_catch_effects order cmd_add r st).
  - split; [split; intros E; discriminate E|].
    split; [intros N; exfalso; apply N; right; left; reflexivity|].
    apply (handle_catch_effects order cmd_del r st).
  - split; [split; intros E; discriminate E|].
    cbn [RouterCLI.write_cout RouterCLI.table RouterCLI.log RouterCLI.cout].
    split; [intros _; split; reflexivity|].
    split; [lia|]. split; [apply extends_refl | apply extends_app].
  - split; [split; intros E; discriminate E|].
    split; [intros N; exfalso; apply N; right; right; left; reflexivity|].
    apply (handle_catch_effects order cmd_send r st).
  - split; [split; intros E; discriminate E|].
    cbn [RouterCLI.printHelp RouterCLI.write_cout RouterCLI.table RouterCLI.log RouterCLI.cout].
    split; [intros _; split; reflexivity|].
    split; [lia|]. split; [apply extends_refl | apply extends_app].
  - split; [split; reflexivity|].
    split; [intros _; split; reflexivity|].
    split; [lia|]. split; apply extends_refl.
  - split; [split; [intros E; discriminate E|]|].
    { intros E. exfalso. apply Hnot. rewrite E. cbn [In]. tauto. }
    cbn [RouterCLI.write_cout RouterCLI.table RouterCLI.log RouterCLI.cout].
    split; [intros _; split; reflexivity|].
    split; [lia|]. split; [apply extends_refl | apply extends_app].
Qed.

(** X15. One line of input: only [exit] ends the loop; a line whose first
    word is not add, del or send changes neither the table nor the log;
    no line adds more than one entry to the table, and the log and [cout]
    are only appended to. *)
Theorem run_line_frame :
  forall (order : site -> eval_order) (st st' : RouterCLI.t) (cmd : string) (go : bool),
    RouterCLI.run_line order st cmd st' go ->
    (go = false <-> fst (RouterCLI.read_op cmd) = "exit") /\
    (~ In (fst (RouterCLI.read_op cmd)) ["add"; "del"; "send"] ->
     RouterCLI.table st' = RouterCLI.table st /\ RouterCLI.log st' = RouterCLI.log st) /\
    (List.length (RouterCLI.table st') <= S (List.length (RouterCLI.table st)))%nat /\
    extends (RouterCLI.log st) (RouterCLI.log st') /\
    extends (RouterCLI.cout st) (RouterCLI.cout st').
Proof. exact run_line_effects. Qed.

Lemma run_line_frame_witness :
  let st := RouterCLI.mk [] "" "" in
  (true = false <-> fst (RouterCLI.read_op "help me") = "exit") /\
  (~ In (fst (RouterCLI.read_op "help me")) ["add"; "del"; "send"] ->
   RouterCLI.table (RouterCLI.printHelp st) = RouterCLI.table st /\
   RouterCLI.log (RouterCLI.printHelp st) = RouterCLI.log st) /\
  (List.length (RouterCLI.table (RouterCLI.printHelp st))
   <= S (List.length (RouterCLI.table st)))%nat /\
  extends (RouterCLI.log st) (RouterCLI.log (RouterCLI.printHelp st)) /\
  extends (RouterCLI.cout st) (RouterCLI.cout (RouterCLI.printHelp st)).
Proof.
  intros st.
  apply (run_line_frame (fun _ => left_first) st _ "help me" true).
  apply (RouterCLI.line_help _ st "help me" " me"). reflexivity.
Defined.

Lemma print_total (routes : RoutingTable.t) : exists text, RoutingTable.print routes text.
Proof.
  destruct routes as [|r routes].
  - eexists. apply RoutingTable.print_empty. reflexivity.
  - eexists. apply (RoutingTable.print_sorted _ (stable_sort_by_metric (r :: routes)));
      [discriminate | apply stable_sort_result].
Qed.

Lemma run_line_total (order : site -> eval_order) (st : RouterCLI.t) (cmd : string) :
  exists st' go, RouterCLI.run_line order st cmd st' go.
Proof.
  destruct (RouterCLI.read_op cmd) as [op rest] eqn:Hop.
  destruct (string_dec op "add") as [->|Nadd];
    [do 2 eexists; apply (RouterCLI.line_add _ _ _ rest); exact Hop|].
  destruct (string_dec op "del") as [->|Ndel];
    [do 2 eexists; apply (RouterCLI.line_del _ _ _ rest); exact Hop|].
  destruct (string_dec op "show") as [->|Nshow].
  { destruct (print_total (RouterCLI.table st)) as [text Ht].
    do 2 eexists. apply (RouterCLI.line_show _ _ _ rest text); [exact Hop | exact Ht]. }
  destruct (string_dec op "send") as [->|Nsend];
    [do 2 eexists; apply (RouterCLI.line_send _ _ _ rest); exact Hop|].
  destruct (string_dec op "help") as [->|Nhelp];
    [do 2 eexists; apply (RouterCLI.line_help _ _ _ rest); exact Hop|].
  destruct (string_dec op "exit") as [->|Nexit];
    [do 2 eexists; apply (RouterCLI.line_exit _ _ _ rest); exact Hop|].
  do 2 eexists. apply (RouterCLI.line_unknown _ _ _ op rest); [exact Hop|].
  cbn [In]. intros [E|[E|[E|[E|[E|[E|[]]]]]]]; congruence.
Qed.

Lemma run_loop_total (order : site -> eval_order) (lines : list string) :
  forall st, exists st', RouterCLI.run_loop order st lines st'.
Proof.
  induction lines as [|cmd more IH]; intros st.
  - eexists. apply RouterCLI.loop_eof.
  - destruct (run_line_total order (RouterCLI.write_cout st (Text.nl ++ "> ")) cmd)
      as (st1 & go & H1).
    destruct go.
    + destruct (IH st1) as [st2 H2]. exists st2.
      apply (RouterCLI.loop_next _ _ _ _ st1); assumption.
    + exists st1. apply RouterCLI.loop_exit. exact H1.
Qed.

Lemma run_loop_effects (order : site -> eval_order) (st st' : RouterCLI.t)
      (lines : list string) :
  RouterCLI.run_loop order st lines st' ->
  (List.length (RouterCLI.table st') <= List.length (RouterCLI.table st) + List.length lines)%nat /\
  extends (RouterCLI.log st) (RouterCLI.log st') /\
  extends (RouterCLI.cout st) (RouterCLI.cout st').
Proof.
  induction 1 as [st|st cmd more st' Hl|st cmd more st' st'' Hl Hrest IH].
  - cbn [RouterCLI.write_cout RouterCLI.table RouterCLI.log RouterCLI.cout List.length].
    split; [lia|]. split; [apply extends_refl | apply extends_app].
  - apply run_line_effects in Hl. destruct Hl as (_ & _ & Hlen & Hlog & Hcout).
    cbn [RouterCLI.write_cout RouterCLI.table RouterCLI.log RouterCLI.cout List.length] in *.
    split; [lia|]. split; [exact Hlog|].
    eapply extends_trans; [apply extends_app | exact Hcout].
  - apply run_line_effects in Hl. destruct Hl as (_ & _ & Hlen & Hlog & Hcout).
    destruct IH as (IHlen & IHlog & IHcout).
    cbn [RouterCLI.write_cout RouterCLI.table RouterCLI.log RouterCLI.cout List.length] in *.
    split; [lia|]. split; [eapply extends_trans; eassumption|].
    eapply extends_trans; [apply extends_app|]. eapply extends_trans; eassumption.
Qed.

(** X16. The loop of [run] always comes to an end with some final state,
    whatever the lines are; and once a line whose first word is exit is
    read, the lines behind it are not executed: the state is the one
    before, with the prompt written. *)
Theorem run_loop_ends :
  (forall (order : site -> eval_order) (st : RouterCLI.t) (lines : list string),
      exists st', RouterCLI.run_loop order st lines st') /\
  (forall (order : site -> eval_order) (st st' : RouterCLI.t) (cmd : string)
          (more : list string),
      fst (RouterCLI.read_op cmd) = "exit" ->
      (RouterCLI.run_loop order st (cmd :: more) st' <->
       st' = RouterCLI.write_cout st (Text.nl ++ "> "))).
Proof.
  split.
  - intros order st lines. apply run_loop_total.
  - intros order st st' cmd more Hexit. split.
    + intros H. remember (cmd :: more) as lines eqn:El.
      destruct H as [st|st c m st' Hl|st c m st' st'' Hl Hrest]; [discriminate El| |].
      * injection El as -> ->.
        destruct Hl as [r Hop|r Hop|r text Hop Hp|r Hop|r Hop|r Hop|op r Hop Hnot];
          rewrite Hop in Hexit; cbn [fst] in Hexit; try discriminate Hexit.
        -- reflexivity.
        -- exfalso. apply Hnot. rewrite Hexit. cbn [In]. tauto.
      * injection El as -> ->. apply run_line_effects in Hl.
        destruct Hl as (Hgo & _). discriminate (proj2 Hgo Hexit).
    + intros ->. apply RouterCLI.loop_exit.
      destruct (RouterCLI.read_op cmd) as [op rest] eqn:Hop. cbn [fst] in Hexit. subst op.
      apply (RouterCLI.line_exit _ _ _ rest). exact Hop.
Qed.

Lemma run_loop_ends_witness :
  let st := RouterCLI.mk [] "" "" in
  RouterCLI.run_loop (fun _ => left_first) st ["exit"; "add 10.0.0.0/8 1.1.1.1 1"]
                     (RouterCLI.write_cout st (Text.nl ++ "> ")).
Proof.
  intros st.
  apply (proj2 run_loop_ends (fun _ => left_first) st _ "exit" ["add 10.0.0.0/8 1.1.1.1 1"]);
    reflexivity.
Defined.

(** X17. A whole run of the program: what the log file held before is
    still its beginning afterwards, the table holds at most as many routes
    as lines were read, all of them with addresses cut to their prefixes,
    and [cout] begins with the help text. *)
Theorem main_log_and_table :
  forall (order : site -> eval_order) (old_log : string) (lines : list string)
         (final : RouterCLI.t),
    main order old_log lines final ->
    extends old_log (RouterCLI.log final) /\
    (List.length (RouterCLI.table final) <= List.length lines)%nat /\
    RoutingTable.valid (RouterCLI.table final) /\
    extends (RouterCLI.cout (RouterCLI.printHelp (RouterCLI.mk [] old_log "")))
            (RouterCLI.cout final).
Proof.
  intros order old_log lines final H. unfold main, RouterCLI.run in H.
  pose proof (run_loop_effects _ _ _ _ H) as (Hlen & Hlog & Hcout).
  split; [exact Hlog|]. split; [exact Hlen|]. split; [|exact Hcout].
  apply (run_loop_valid _ _ _ _ H). constructor.
Qed.

Lemma main_log_and_table_witness :
  let final := RouterCLI.write_cout (RouterCLI.printHelp (RouterCLI.mk [] "old" ""))
                                    (Text.nl ++ "> ") in
  extends "old" (RouterCLI.log final) /\
  (List.length (RouterCLI.table final) <= List.length (@nil string))%nat /\
  RoutingTable.valid (RouterCLI.table final) /\
  extends (RouterCLI.cout (RouterCLI.printHelp (RouterCLI.mk [] "old" ""))) (RouterCLI.cout final).
Proof.
  intros final.
  apply (main_log_and_table (fun _ => left_first) "old" [] final).
  apply RouterCLI.loop_eof.
Defined.

Lemma handle_throw_state (order : site -> eval_order) (c : command) (ss : string)
      (st st' : RouterCLI.t) (e : exn) :
  RoutingTable.valid (RouterCLI.table st) ->
  handle order c ss st = (st', Throw e) -> st' = st.
Proof.
  intros Hv. destruct c; cbn [handle]; intros H.
  - apply handleAdd_throw in H. apply H.
  - apply handleDelete_throw in H. apply H.
  - revert H. unfold RouterCLI.handleSend.
    destruct (RouterCLI.read_send_args ss) as [[[src dst] proto]|]; [|intros H; split_result H].
    destruct (both (order site_packet_args) (IPAddress.make order src) (IPAddress.make order dst))
      as [[s d]|e']; [|intros H; split_result H; reflexivity].
    cbn [RouterCLI.write_cout RouterCLI.table Packet.getDestination Packet.destination].
    destruct (findRoute_scanned (RouterCLI.table st) d Hv) as (res & Hres & _).
    rewrite Hres. destruct res; intros H; split_result H.
Qed.

Lemma c_str_app_not_nul (s t : string) :
  all_chars not_nul s = true -> Text.c_str (s ++ t) = (s ++ Text.c_str t)%string.
Proof.
  induction s as [|c s IH]; cbn [append all_chars Text.c_str]; [reflexivity|].
  rewrite andb_true_iff. unfold not_nul at 1. rewrite negb_true_iff.
  intros [Hz Hs]. rewrite Hz, IH by exact Hs. reflexivity.
Qed.

(** X18. A command that throws does nothing at all to the router, and the
    loop then writes one line to [cout]: the word for error and [e.what()].
    For a refused address this is the message naming the address text, cut
    at the first NUL byte if the text holds one; otherwise it is the message
    with the allowed range of prefixes, or that of [std::stoi]. *)
Theorem failed_command_report :
  forall (order : site -> eval_order) (c : command) (ss : string)
         (st st' : RouterCLI.t) (e : exn),
    RoutingTable.valid (RouterCLI.table st) ->
    handle order c ss st = (st', Throw e) ->
    st' = st /\
    RouterCLI.catch (handle order c ss st)
    = RouterCLI.write_cout st ("Błąd: " ++ what e ++ Text.nl) /\
    match e with
    | bad_ip_format ip =>
        what e = ("Nieprawidłowy format adresu IP: " ++
                  Text.c_str (ip ++ ". Poprawny przykład: 192.168.0.1"))%string /\
        (all_chars not_nul ip = true ->
         what e = ("Nieprawidłowy format adresu IP: " ++ ip ++
                   ". Poprawny przykład: 192.168.0.1")%string)
    | bad_prefix => what e = "Nieprawidłowa długość prefiksu. Dozwolony zakres: 0-32."
    | stoi_invalid_argument | stoi_out_of_range => what e = "stoi"
    end.
Proof.
  intros order c ss st st' e Hv H.
  pose proof (handle_throw_state order c ss st st' e Hv H) as ->.
  split; [reflexivity|]. split; [rewrite H; reflexivity|].
  destruct e as [ip| | |]; try reflexivity.
  assert (E : what (bad_ip_format ip)
              = ("Nieprawidłowy format adresu IP: " ++
                 Text.c_str (ip ++ ". Poprawny przykład: 192.168.0.1"))%string)
    by reflexivity.
  split; [exact E|].
  intros Hip. rewrite E, c_str_app_not_nul by exact Hip. reflexivity.
Qed.

Lemma failed_command_report_witness :
  let st := RouterCLI.mk [] "" "" in
  st = st /\
  RouterCLI.catch (handle (fun _ => left_first) cmd_send " 1.2.3 10.0.0.1 ICMP" st)
  = RouterCLI.write_cout st ("Błąd: " ++ what (bad_ip_format "1.2.3") ++ Text.nl) /\
  (what (bad_ip_format "1.2.3")
   = ("Nieprawidłowy format adresu IP: " ++
      Text.c_str ("1.2.3" ++ ". Poprawny przykład: 192.168.0.1"))%string /\
   (all_chars not_nul "1.2.3" = true ->
    what (bad_ip_format "1.2.3")
    = ("Nieprawidłowy format adresu IP: " ++ "1.2.3" ++
       ". Poprawny przykład: 192.168.0.1")%string)).
Proof.
  intros st.
  apply (failed_command_report (fun _ => left_first) cmd_send " 1.2.3 10.0.0.1 ICMP" st st
                               (bad_ip_format "1.2.3")).
  - apply Forall_nil.
  - vm_compute. reflexivity.
Defined.
